(** * Salary reports: statistics, bucket distribution and ranking

    A shallow embedding of [SalariesReport] (testing.py): the per-query
    statistics of [calculate_salary_stats], the weighted histogram built
    by [plot_distrib] and the two orderings of [report_all].

    Conventions of the embedding.
    - An integer column (pandas int64, Python int) is a list of [Z]; no
      integer arithmetic of the program can overflow, the sums are taken
      in float64.
    - float64 arithmetic. The statistics (lines 79-85) are computed
      exactly, on [Z]: this is what the program computes as long as the
      salaries of a frame add up to less than 2^53, the range in which
      binary64 holds every integer; [row_mean64] is line 79 as the
      program computes it beyond. The weights of [plot_distrib] are
      exact rationals ([Qc]); [plot_distrib64] is the same loop on
      binary64, as the program runs it.
    - Only the columns [minSalary] and [maxSalary] are modelled, adjacent
      and in that order, so that the label slice
      [df.loc[:, "minSalary":"maxSalary"]] selects exactly these two.
    - An exception is a value [Raise e]; [report_all] catches those of
      [calculate_salary_stats].
    - The offers are numeric already: [pandas.to_numeric] (line 68)
      leaves them as they are.
    - Plotting calls (matplotlib) are not modelled, but for the grid of
      line 38, which refuses to be made of no row. *)

From Stdlib Require Import ZArith QArith Qcanon Qround Lia.
From Stdlib Require PrimFloat FloatOps SpecFloat Uint63.
From stdpp Require Import base numbers list sorting strings gmap.

Local Open Scope Z_scope.

(** ** Exceptions *)

Inductive exn := TypeError | ValueError | OverflowError.

Inductive result (A : Type) :=
  | Ok (a : A)
  | Raise (e : exn).
Arguments Ok {A} a.
Arguments Raise {A} e.

Global Instance result_ret : MRet result := λ A a, Ok a.
Global Instance result_bind : MBind result := λ A B f m,
  match m with
  | Ok a => f a
  | Raise e => Raise e
  end.

(** [for x in l: ...] with a body that may raise and that builds a list. *)
Fixpoint for_each {A B} (f : A → result B) (l : list A) : result (list B) :=
  match l with
  | [] => Ok []
  | x :: l' => y ← f x; ys ← for_each f l'; Ok (y :: ys)
  end.

(** ** Data *)

(** One row of the frame, restricted to the two salary columns. *)
Record offer (A : Type) := Offer { minSalary : A; maxSalary : A }.
Arguments Offer {A} _ _.
Arguments minSalary {A} _.
Arguments maxSalary {A} _.

Global Instance offer_eq_dec `{EqDecision A} : EqDecision (offer A).
Proof. solve_decision. Defined.

(** What Python finds in a cell of a row: an int or a float. *)
Inductive num :=
  | PyInt (z : Z)
  | PyFloat (q : Q).

Definition is_float (n : num) : Prop :=
  match n with PyFloat _ => True | PyInt _ => False end.

Definition num_nonneg (n : num) : Prop :=
  match n with PyInt z => 0 ≤ z | PyFloat q => (0 <= q)%Q end.

Definition int_row (o : offer Z) : offer num :=
  Offer (PyInt (minSalary o)) (PyInt (maxSalary o)).

(** ** [calculate_salary_stats] *)

(** Line 71: [df = df[df.minSalary != 0]]. *)
Definition drop_unadvertised (df : list (offer Z)) : list (offer Z) :=
  filter (λ o, minSalary o ≠ 0) df.

(** Line 73. The lambda of
    [df['maxSalary'].apply(lambda x: df['minSalary'] if x == 0 else x)]
    answers, for a zero cell, with [df['minSalary']]: the whole column
    of the frame, not the entry of the row at hand. *)
Inductive cell :=
  | Scalar (x : Z)
  | Series (s : list Z).

Definition fill_max (df : list (offer Z)) (x : Z) : cell :=
  if decide (x = 0) then Series (minSalary <$> df) else Scalar x.

Definition apply_fill_max (df : list (offer Z)) : list cell :=
  fill_max df <$> (maxSalary <$> df).

(** What pandas makes of the mapped values when they are stored back
    with [df['maxSalary'] = ...] and then used as a numeric column.
    - All results are scalars: they are the new column.
    - The first result is a Series: [Series.apply] expands the results
      to a frame with one row per result and one column per entry of
      that Series (a scalar among the results raises TypeError); a
      frame is accepted for the single column [maxSalary] only when it
      has exactly one column (pandas 1.3 and later raise ValueError
      otherwise; earlier releases keep a wrong column silently).
    - A Series after a first scalar result leaves an object column,
      which the numeric reductions that follow (lines 79 and 89)
      reject with TypeError. *)
Definition set_maxSalary (cells : list cell) : result (list Z) :=
  match cells with
  | Series _ :: _ =>
      rows ← for_each (λ c, match c with
                            | Series r => Ok r
                            | Scalar _ => Raise TypeError
                            end) cells;
      for_each (λ r, match r with
                     | [m] => Ok m
                     | _ => Raise ValueError
                     end) rows
  | _ =>
      for_each (λ c, match c with
                     | Scalar x => Ok x
                     | Series _ => Raise TypeError
                     end) cells
  end.

(** The cleaning step, lines 70-73, with its [maxSalary] column read as
    a numeric column, as line 79 reads it first. Where line 73 leaves
    an object column (a Series after a first scalar), the assignment
    itself goes through and the TypeError recorded here is the one of
    line 79. *)
Definition clean (offers : list (offer Z)) : result (list (offer Z)) :=
  let df := drop_unadvertised offers in
  maxs ← set_maxSalary (apply_fill_max df);
  Ok (zip_with (λ o m, Offer (minSalary o) m) df maxs).

(** The cleaning step as the specification words it. *)
Definition spec_clean (offers : list (offer Z)) : list (offer Z) :=
  (λ o, if decide (maxSalary o = 0) then Offer (minSalary o) (minSalary o) else o)
    <$> filter (λ o, minSalary o ≠ 0) offers.

(** The invariant that the specification expects of a cleaned record. *)
Definition cleaned_record (o : offer Z) : Prop :=
  0 < minSalary o ≤ maxSalary o.

(** [float.astype(int)] and [int(float)] truncate toward zero. *)
Definition trunc_div (a b : Z) : Z := Z.quot a b.

(** Line 79: [col.mean(axis=1).astype(int)], per row, computed exactly.
    The program adds and halves in float64 ([row_mean64] below), which
    is exact as long as the two salaries add up to less than 2^53 in
    magnitude. *)
Definition row_mean (o : offer Z) : Z :=
  trunc_div (minSalary o + maxSalary o) 2.

Definition sum_list (l : list Z) : Z := foldr Z.add 0 l.

(** Python's [list.sort] and pandas' sorting only ever ask whether one
    element is smaller than another, and they are stable: [insert_sorted]
    puts [x], which comes first in the input, before the elements that
    are not smaller than it. *)
Fixpoint insert_sorted {A} (lt : A → A → bool) (x : A) (l : list A) : list A :=
  match l with
  | [] => [x]
  | y :: l' => if lt y x then y :: insert_sorted lt x l' else x :: y :: l'
  end.

Definition stable_sort {A} (lt : A → A → bool) (l : list A) : list A :=
  foldr (insert_sorted lt) [] l.

(** [a] may stand before [b] in a sorted list: [b] is not smaller. *)
Definition not_after {A} (lt : A → A → bool) (a b : A) : Prop := lt b a = false.

(** Line 84: [int(offers_mean.mean())], computed exactly. The mean of
    an empty column is NaN, and [int(nan)] raises ValueError. The
    program sums in float64 and divides in float64: below 2^53 the sum
    is exact, and the rounded quotient of two such integers has the
    integer part of the exact one. *)
Definition int_mean (l : list Z) : result Z :=
  match l with
  | [] => Raise ValueError
  | _ => Ok (trunc_div (sum_list l) (Z.of_nat (length l)))
  end.

(** Line 85: [int(offers_mean.median())]: the middle value of the sorted
    column, or the average of the two middle values, computed exactly
    (as float64 does below 2^53). *)
Definition int_median (l : list Z) : result Z :=
  let s := stable_sort Z.ltb l in
  let n := length s in
  match n with
  | O => Raise ValueError
  | _ =>
      if Nat.even n
      then Ok (trunc_div (s !!! (n / 2 - 1)%nat + s !!! (n / 2)%nat) 2)
      else Ok (s !!! (n / 2)%nat)
  end.

(** Lines 88-89 on a column with first entry [x]. *)
Definition series_min (x : Z) (l : list Z) : Z := foldl Z.min x l.
Definition series_max (x : Z) (l : list Z) : Z := foldl Z.max x l.

(** The frame that is returned: each row with its [salary_mean]. *)
Definition frame : Type := list (offer Z * Z).

Definition with_salary_mean (df : list (offer Z)) : frame :=
  (λ o, (o, row_mean o)) <$> df.

Definition stats_tuple : Type := (frame * Z * Z * Z * Z)%type.

(** The outcome that the specification calls Empty: no tuple comes
    back, be it by [return None] or by an exception. *)
Definition Empty (r : result (option stats_tuple)) : Prop :=
  ∀ t, r ≠ Ok (Some t).

(** Lines 63-91. [Ok None] is the implicit [return None] taken when
    [offers] is empty. *)
Definition calculate_salary_stats (offers : list (offer Z))
  : result (option stats_tuple) :=
  match offers with
  | [] => Ok None
  | _ =>
      df ← clean offers;
      let offers_mean := row_mean <$> df in
      mean ← int_mean offers_mean;
      median ← int_median offers_mean;
      match df with
      | [] => Raise ValueError
      | o :: df' =>
          let min_ := series_min (minSalary o) (minSalary <$> df') in
          let max_ := series_max (maxSalary o) (maxSalary <$> df') in
          Ok (Some (with_salary_mean df, mean, median, min_, max_))
      end
  end.

(** ** [plot_distrib] *)

(** Line 109: [int(max_ // box_width)], with [max_] a numpy scalar.
    An int64 divided by zero is 0 (numpy warns and goes on), as is [z / 0]
    in [Z]; a float divided by zero is nan or inf, which [int] refuses. *)
Definition floor_div (max_ : num) (box_width : Z) : result Z :=
  match max_ with
  | PyInt z => Ok (z / box_width)
  | PyFloat q =>
      if decide (box_width = 0)
      then Raise (if Qeq_bool q 0 then ValueError else OverflowError)
      else Ok (Qfloor (q / inject_Z box_width))
  end.

(** [top] is the floor of [max_ / box_width], for a positive width. *)
Definition floor_of_ratio (top : Z) (max_ : num) (box_width : Z) : Prop :=
  match max_ with
  | PyInt z => top * box_width ≤ z < (top + 1) * box_width
  | PyFloat q =>
      (inject_Z (top * box_width) <= q)%Q
      ∧ (q < inject_Z ((top + 1) * box_width))%Q
  end.

(** [range(n)]. *)
Definition py_range (n : Z) : list Z := Z.of_nat <$> seq 0 (Z.to_nat n).

(** Lines 108-112. *)
Definition indexes (max_ : num) (box_width : Z) : result (list Z) :=
  boxes ← floor_div max_ box_width;
  let query_width := boxes + 1 in
  Ok ((λ box, box * box_width) <$> py_range query_width).

(** Line 118: [index in range(lo, hi)]. [range] takes integers only:
    a float argument raises TypeError, whatever its value. *)
Definition in_range (index : Z) (lo hi : num) : result bool :=
  match lo, hi with
  | PyInt a, PyInt b => Ok (bool_decide (a ≤ index < b))
  | _, _ => Raise TypeError
  end.

(** Lines 116-119: the inner loop over [indexes]. *)
Fixpoint boxes_filled (idx : list Z) (row : offer num) : result (list Z) :=
  match idx with
  | [] => Ok []
  | index :: idx' =>
      hit ← in_range index (minSalary row) (maxSalary row);
      boxes ← boxes_filled idx' row;
      Ok (if hit : bool then index :: boxes else boxes)
  end.

(** [res = collections.defaultdict(int)]: a missing key reads as 0. *)
Definition res_get (res : gmap Z Qc) (box : Z) : Qc :=
  default 0%Qc (res !! box).

(** Line 124: [res[box] += weigth]. *)
Definition add_weight (weigth : Qc) (res : gmap Z Qc) (box : Z) : gmap Z Qc :=
  <[box := (res_get res box + weigth)%Qc]> res.

Definition Qc_of_nat (n : nat) : Qc := Qc_of_Z (Z.of_nat n).

(** Lines 121-124. *)
Definition spread (res : gmap Z Qc) (boxes : list Z) : gmap Z Qc :=
  match boxes with
  | [] => res
  | _ =>
      let weigth := (1 / Qc_of_nat (length boxes))%Qc in
      foldl (add_weight weigth) res boxes
  end.

(** Lines 115-124: the loop over the rows of the frame. *)
Fixpoint fill_rows (idx : list Z) (res : gmap Z Qc) (rows : list (offer num))
  : result (gmap Z Qc) :=
  match rows with
  | [] => Ok res
  | row :: rows' =>
      boxes ← boxes_filled idx row;
      fill_rows idx (spread res boxes) rows'
  end.

(** Lines 105-124, on the two entries of [stat] that are read: the
    frame [df] and [max_]. The result is [res]. *)
Definition plot_distrib (df : list (offer num)) (max_ : num) (box_width : Z)
  : result (gmap Z Qc) :=
  idx ← indexes max_ box_width;
  fill_rows idx ∅ df.

(** Line 126: [sorted(res.items())], the bars that are drawn. *)
Definition bars (res : gmap Z Qc) : list (Z * Qc) :=
  stable_sort (λ a b, a.1 <? b.1) (map_to_list res).

(** The sum of all the values of [res]. *)
Definition total_mass (res : gmap Z Qc) : Qc :=
  foldr Qcplus 0%Qc ((map_to_list res).*2).

(** Does a row fill at least one box? *)
Definition overlaps (idx : list Z) (o : offer Z) : bool :=
  match boxes_filled idx (int_row o) with
  | Ok (_ :: _) => true
  | _ => false
  end.

(** ** [report_all] *)

(** An entry of [stats]: [(qname, dataframe, max_, min_, mean, median)]. *)
Record stat := Stat {
  qname : string;
  df : frame;
  max_ : Z;
  min_ : Z;
  mean : Z;
  median : Z
}.

(** A query as the database lists it: [(qid, qname, _, qcount)]. *)
Record query := Query { qid : Z; query_name : string; qcount : Z }.

(** Python compares the key tuples [(item[2], item[5])] entry by entry. *)
Definition tuple_lt (a b : Z * Z) : bool :=
  (a.1 <? b.1) || ((a.1 =? b.1) && (a.2 <? b.2)).

Definition sort_key (item : stat) : Z * Z := (max_ item, median item).

(** The order on keys that [tuple_lt] decides: first entry, then second. *)
Definition key_le (a b : Z * Z) : Prop :=
  a.1 < b.1 ∨ (a.1 = b.1 ∧ a.2 ≤ b.2).

(** Line 31: [stats.sort(key=..., reverse=True)]. *)
Definition sort_reverse (stats : list stat) : list stat :=
  stable_sort (λ a b, tuple_lt (sort_key b) (sort_key a)) stats.

(** Line 52: [stats.sort(key=...)]. *)
Definition sort_forward (stats : list stat) : list stat :=
  stable_sort (λ a b, tuple_lt (sort_key a) (sort_key b)) stats.

Section Report.
(** [self.db.retrieve_offers_from]. *)
Variable retrieve_offers_from : Z → list (offer Z).

(** Lines 23-28: one turn of the loop. Unpacking [None] raises
    TypeError; whatever is raised is caught and the query is passed
    over. *)
Definition try_query (stats : list stat) (q : query) : list stat :=
  match calculate_salary_stats (retrieve_offers_from (qid q)) with
  | Ok (Some (dataframe, mean, median, min_, max_)) =>
      stats ++ [Stat (query_name q) dataframe max_ min_ mean median]
  | Ok None => stats
  | Raise _ => stats
  end.

(** Lines 21-28. *)
Definition collect_stats (queries : list query) : list stat :=
  foldl try_query [] queries.

(** Line 58, for one entry of [stats]. *)
Definition plot_stat (item : stat) : result (gmap Z Qc) :=
  plot_distrib (int_row <$> (df item).*1) (PyInt (max_ item)) 1000.

(** Line 38: [GridSpecFromSubplotSpec(len(stats), 1, ...)]. matplotlib
    raises ValueError for a grid of no row. *)
Definition histogram_grid (stats : list stat) : result nat :=
  match stats with
  | [] => Raise ValueError
  | _ => Ok (length stats)
  end.

(** [report_all]: the order handed to [plot_curves] and, in the order
    in which they are drawn, the distributions. *)
Definition report_all (queries : list query)
  : result (list stat * list (gmap Z Qc)) :=
  let stats := collect_stats queries in
  let descending := sort_reverse stats in
  rows ← histogram_grid descending;
  let ascending := sort_forward descending in
  distribs ← for_each plot_stat ascending;
  Ok (descending, distribs).
End Report.

(** ** [plot_curves] *)

(** Lines 143-149: the arrays that are drawn, one entry per item of
    [stats]: [(labels, average, median, min_, max_)]. *)
Definition plot_curves (stats : list stat)
  : list string * list Z * list Z * list Z * list Z :=
  (qname <$> stats, mean <$> stats, median <$> stats,
   min_ <$> stats, max_ <$> stats).

(** ** binary64 *)

(** Python's [float] and numpy's [float64] are IEEE 754 binary64 with
    rounding to nearest, ties to even, as are Rocq's primitive floats. *)

(** An int64 (or a Python int below 2^63) read as a float64. *)
Definition float_of_int (z : Z) : PrimFloat.float :=
  if z <? 0
  then PrimFloat.opp (PrimFloat.of_uint63 (Uint63.of_Z (- z)))
  else PrimFloat.of_uint63 (Uint63.of_Z z).

(** The number that a finite float64 stands for. *)
Definition float_to_Q (f : PrimFloat.float) : Q :=
  match FloatOps.Prim2SF f with
  | SpecFloat.S754_finite s m e =>
      let q := if 0 <=? e
               then inject_Z (Z.pos m * 2 ^ e)
               else Z.pos m # Z.to_pos (2 ^ (- e)) in
      if s then Qopp q else q
  | _ => 0%Q
  end.

(** [astype(int)]: the fractional part is dropped; what does not fit
    an int64 becomes -2^63. *)
Definition astype_int (f : PrimFloat.float) : Z :=
  match FloatOps.Prim2SF f with
  | SpecFloat.S754_finite s m e =>
      let v := if 0 <=? e then Z.pos m * 2 ^ e else Z.pos m / 2 ^ (- e) in
      let v := if s then - v else v in
      if (- 2 ^ 63 <=? v) && (v <? 2 ^ 63) then v else - 2 ^ 63
  | SpecFloat.S754_zero _ => 0
  | _ => - 2 ^ 63
  end.

(** Line 79 as the program computes it: the two int64 cells are read as
    float64, added, divided by their number, and cast. [row_mean] is
    its value as long as no rounding takes place. *)
Definition row_mean64 (o : offer Z) : Z :=
  astype_int
    (PrimFloat.div
       (PrimFloat.add (float_of_int (minSalary o)) (float_of_int (maxSalary o)))
       (float_of_int 2)).

(** ** [plot_distrib], whatever the arithmetic of the weights *)

Section Weights.
Context {W : Type}.
(** The [0] of [defaultdict(int)], [+=] and [1 / len(boxes_filled)]. *)
Variable zero : W.
Variable plus : W → W → W.
Variable share : nat → W.

Definition res_get_in (res : gmap Z W) (box : Z) : W :=
  default zero (res !! box).

(** Line 124. *)
Definition add_weight_in (weigth : W) (res : gmap Z W) (box : Z) : gmap Z W :=
  <[box := plus (res_get_in res box) weigth]> res.

(** Lines 121-124. *)
Definition spread_in (res : gmap Z W) (boxes : list Z) : gmap Z W :=
  match boxes with
  | [] => res
  | _ => foldl (add_weight_in (share (length boxes))) res boxes
  end.

(** Lines 115-124. *)
Fixpoint fill_rows_in (idx : list Z) (res : gmap Z W) (rows : list (offer num))
  : result (gmap Z W) :=
  match rows with
  | [] => Ok res
  | row :: rows' =>
      boxes ← boxes_filled idx row;
      fill_rows_in idx (spread_in res boxes) rows'
  end.

(** Lines 105-124. *)
Definition plot_distrib_in (df : list (offer num)) (max_ : num) (box_width : Z)
  : result (gmap Z W) :=
  idx ← indexes max_ box_width;
  fill_rows_in idx ∅ df.
End Weights.

(** [1 / len(boxes_filled)] in binary64. *)
Definition share64 (n : nat) : PrimFloat.float :=
  PrimFloat.div (float_of_int 1) (float_of_int (Z.of_nat n)).

(** [plot_distrib] as the program runs it: [res] holds float64. The
    first [+=] on a box adds to the int [0], which leaves the weight. *)
Definition plot_distrib64 (df : list (offer num)) (max_ : num) (box_width : Z)
  : result (gmap Z PrimFloat.float) :=
  plot_distrib_in (float_of_int 0) PrimFloat.add share64 df max_ box_width.

(** Line 126, on float64. *)
Definition bars64 (res : gmap Z PrimFloat.float) : list (Z * PrimFloat.float) :=
  stable_sort (λ a b, a.1 <? b.1) (map_to_list res).



(** A row overlaps a grid when one of its points [b] has
    [minSalary ≤ b < maxSalary]. *)
Definition overlaps_grid (idx : list Z) (o : offer Z) : Prop :=
  Exists (λ b, minSalary o ≤ b < maxSalary o) idx.

Global Instance overlaps_grid_dec idx o : Decision (overlaps_grid idx o).
Proof. unfold overlaps_grid. apply _. Defined.

(** The least [k] with [a ≤ k * w], for a positive [w]. *)
Definition ceil_div (a w : Z) : Z := - ((- a) / w).

(** * Properties *)

(** ** The error monad and the loops *)

Lemma bind_Ok {A B} (f : A → result B) (m : result A) (b : B) :
  m ≫= f = Ok b ↔ ∃ a, m = Ok a ∧ f a = Ok b.
Proof.
  destruct m as [a|e]; simpl; split.
  - intros H. by exists a.
  - by intros (a' & [= ->] & H).
  - discriminate.
  - by intros (a' & [=] & _).
Qed.

Lemma for_each_total {A B} (g : A → B) (f : A → result B) (l : list A) :
  Forall (λ x, f x = Ok (g x)) l → for_each f l = Ok (g <$> l).
Proof.
  induction 1 as [|x l Hx _ IH]; simpl; [done|].
  by rewrite Hx, IH.
Qed.

(** ** Cleaning *)

Lemma elem_of_drop_unadvertised (offers : list (offer Z)) (o : offer Z) :
  o ∈ drop_unadvertised offers ↔ o ∈ offers ∧ minSalary o ≠ 0.
Proof. unfold drop_unadvertised. rewrite list_elem_of_filter. tauto. Qed.

Lemma set_maxSalary_scalars (l : list Z) :
  set_maxSalary (Scalar <$> l) = Ok l.
Proof.
  assert (for_each (λ c, match c with
                         | Scalar x => Ok x
                         | Series _ => Raise TypeError
                         end) (Scalar <$> l) = Ok l) as H.
  { induction l as [|x l IH]; [done|].
    rewrite fmap_cons. cbn [for_each]. by rewrite IH. }
  destruct l; exact H.
Qed.

Lemma apply_fill_max_nonzero (df : list (offer Z)) :
  Forall (λ o, maxSalary o ≠ 0) df →
  apply_fill_max df = Scalar <$> (maxSalary <$> df).
Proof.
  unfold apply_fill_max. generalize df at 2. intros df0 H.
  induction H as [|o l Ho _ IH]; [done|].
  rewrite !fmap_cons, IH. unfold fill_max at 1. by rewrite decide_False.
Qed.

Lemma zip_with_own_max (df : list (offer Z)) :
  zip_with (λ o m, Offer (minSalary o) m) df (maxSalary <$> df) = df.
Proof.
  induction df as [|[a b] df IH]; [done|].
  rewrite fmap_cons. cbn [zip_with]. by rewrite IH.
Qed.

(** Where no surviving row has [maxSalary = 0], cleaning is the filter. *)
Lemma clean_nonzero (offers : list (offer Z)) :
  Forall (λ o, maxSalary o ≠ 0) (drop_unadvertised offers) →
  clean offers = Ok (drop_unadvertised offers).
Proof.
  intros H. unfold clean.
  rewrite (apply_fill_max_nonzero _ H), set_maxSalary_scalars. simpl.
  by rewrite zip_with_own_max.
Qed.

Lemma clean_nil : clean [] = Ok [].
Proof. reflexivity. Qed.

(** A frame of one row is the one case in which a zero [maxSalary] is
    replaced as intended: the whole column is then the entry of the row. *)
Lemma clean_single_zero_max (m : Z) :
  m ≠ 0 → clean [Offer m 0] = Ok [Offer m m].
Proof.
  intros Hm. unfold clean, drop_unadvertised.
  by rewrite filter_cons_True, filter_nil by done.
Qed.

(** With a second row the call does not return. *)
Example clean_scalar_then_zero :
  clean [Offer 10000 15000; Offer 20000 0] = Raise TypeError.
Proof. reflexivity. Qed.

Example clean_zero_then_scalar :
  clean [Offer 10000 0; Offer 20000 25000] = Raise TypeError.
Proof. reflexivity. Qed.

(** [astype(int)] truncates: below zero it does not round down. *)
Example row_mean_truncates : row_mean (Offer (-3) (-2)) = -2.
Proof. reflexivity. Qed.

(** ** Reductions of a column *)

Lemma series_min_spec (x : Z) (l : list Z) :
  series_min x l ∈ x :: l ∧ Forall (λ y, series_min x l ≤ y) (x :: l).
Proof.
  unfold series_min. revert x.
  induction l as [|y l IH]; intros x; simpl.
  - split; [left | repeat constructor; lia].
  - destruct (IH (Z.min x y)) as [Hin Hle].
    apply Forall_cons in Hle as [Hm Hle]. split.
    + apply elem_of_cons in Hin as [->|Hin].
      * destruct (Z.min_spec x y) as [[_ ->]|[_ ->]];
          rewrite !elem_of_cons; auto.
      * by do 2 right.
    + repeat constructor; [lia | lia | done].
Qed.

Lemma series_max_spec (x : Z) (l : list Z) :
  series_max x l ∈ x :: l ∧ Forall (λ y, y ≤ series_max x l) (x :: l).
Proof.
  unfold series_max. revert x.
  induction l as [|y l IH]; intros x; simpl.
  - split; [left | repeat constructor; lia].
  - destruct (IH (Z.max x y)) as [Hin Hle].
    apply Forall_cons in Hle as [Hm Hle]. split.
    + apply elem_of_cons in Hin as [->|Hin].
      * destruct (Z.max_spec x y) as [[_ ->]|[_ ->]];
          rewrite !elem_of_cons; auto.
      * by do 2 right.
    + repeat constructor; [lia | lia | done].
Qed.

(** ** Stable sorting *)

Section StableSort.
Context {A : Type} (lt : A → A → bool).

Lemma insert_sorted_Permutation (x : A) (l : list A) :
  insert_sorted lt x l ≡ₚ x :: l.
Proof.
  induction l as [|y l IH]; simpl; [done|].
  destruct (lt y x); [|done].
  rewrite IH. apply Permutation_swap.
Qed.

Lemma stable_sort_Permutation (l : list A) : stable_sort lt l ≡ₚ l.
Proof.
  induction l as [|x l IH]; simpl; [done|].
  by rewrite insert_sorted_Permutation, IH.
Qed.

Lemma length_stable_sort (l : list A) : length (stable_sort lt l) = length l.
Proof. by rewrite stable_sort_Permutation. Qed.

Hypothesis lt_asym : ∀ a b, lt a b = true → lt b a = false.
Hypothesis not_after_trans : ∀ a b c, not_after lt a b → not_after lt b c → not_after lt a c.

Lemma insert_sorted_StronglySorted (x : A) (l : list A) :
  StronglySorted (not_after lt) l → StronglySorted (not_after lt) (insert_sorted lt x l).
Proof.
  induction 1 as [|y l Hl IH Hy]; simpl.
  - repeat constructor.
  - destruct (lt y x) eqn:Hyx.
    + constructor; [done|].
      rewrite insert_sorted_Permutation. constructor; [|done].
      by apply lt_asym.
    + constructor; [by constructor|].
      constructor; [done|].
      eapply Forall_impl; [exact Hy|]. intros z Hz.
      by apply not_after_trans with y.
Qed.

Lemma stable_sort_StronglySorted (l : list A) :
  StronglySorted (not_after lt) (stable_sort lt l).
Proof.
  induction l as [|x l IH]; simpl; [constructor|].
  by apply insert_sorted_StronglySorted.
Qed.
End StableSort.

Lemma sort_Z_sorted (l : list Z) : StronglySorted Z.le (stable_sort Z.ltb l).
Proof.
  eapply StronglySorted_ind with (P := StronglySorted Z.le) (R := not_after Z.ltb).
  - constructor.
  - intros x s _ IH Hx. constructor; [done|].
    eapply Forall_impl; [exact Hx|]. unfold not_after. intros y Hy. lia.
  - apply stable_sort_StronglySorted; unfold not_after; intros; lia.
Qed.

(** ** The statistics of a cleaned frame *)

Lemma int_median_total (l : list Z) :
  l ≠ [] →
  int_median l =
    Ok (let s := stable_sort Z.ltb l in
        if Nat.even (length l)
        then trunc_div (s !!! (length l / 2 - 1)%nat + s !!! (length l / 2)%nat) 2
        else s !!! (length l / 2)%nat).
Proof.
  intros Hl. unfold int_median. rewrite length_stable_sort.
  destruct l as [|x l]; [done|]. cbn [length].
  by destruct (Nat.even (S (length l))).
Qed.

(** Once the cleaning step has left a frame with a first row, the call
    returns, and this is what it returns. *)
Lemma calculate_salary_stats_returns offers o df' :
  clean offers = Ok (o :: df') →
  calculate_salary_stats offers =
    Ok (Some (with_salary_mean (o :: df'),
              trunc_div (sum_list (row_mean <$> o :: df'))
                        (Z.of_nat (length (o :: df'))),
              (let s := stable_sort Z.ltb (row_mean <$> o :: df') in
               if Nat.even (length (o :: df'))
               then trunc_div (s !!! (length (o :: df') / 2 - 1)%nat
                               + s !!! (length (o :: df') / 2)%nat) 2
               else s !!! (length (o :: df') / 2)%nat),
              series_min (minSalary o) (minSalary <$> df'),
              series_max (maxSalary o) (maxSalary <$> df'))).
Proof.
  intros Hclean. unfold calculate_salary_stats.
  destruct offers as [|o0 offers]; [done|].
  rewrite Hclean. cbn [mbind result_bind].
  rewrite int_median_total by done.
  rewrite fmap_cons. cbn [int_mean mbind result_bind].
  by rewrite <-fmap_cons, !length_fmap.
Qed.

Lemma sum_list_nonneg (l : list Z) : Forall (λ x, 0 ≤ x) l → 0 ≤ sum_list l.
Proof. induction 1; simpl; lia. Qed.

Lemma row_mean_floor (o : offer Z) :
  0 ≤ minSalary o + maxSalary o →
  row_mean o = (minSalary o + maxSalary o) / 2.
Proof. intros H. unfold row_mean, trunc_div. by apply Z.quot_div_nonneg. Qed.

Lemma row_mean_nonneg (o : offer Z) :
  0 ≤ minSalary o + maxSalary o → 0 ≤ row_mean o.
Proof. intros H. rewrite row_mean_floor by done. by apply Z.div_pos. Qed.

(** ** The cleaning step and the statistics: the claims *)

(** C1, evaluated where it fails: two rows with [maxSalary = 0]. The
    filter of line 71 keeps both rows, and the lambda of line 73 answers
    with the whole [minSalary] column for each of them, not with the
    [minSalary] of the row: the frame that the specification describes
    is not the one that is built, and the call ends in an exception. *)
Theorem zero_maxSalary_takes_whole_column :
  let offers := [Offer 10000 0; Offer 20000 0] in
  drop_unadvertised offers = offers
  ∧ apply_fill_max offers = [Series [10000; 20000]; Series [10000; 20000]]
  ∧ spec_clean offers = [Offer 10000 10000; Offer 20000 20000]
  ∧ clean offers ≠ Ok (spec_clean offers)
  ∧ calculate_salary_stats offers = Raise ValueError.
Proof. repeat split. vm_compute. discriminate. Qed.

(** C2, refuted: a row whose range is inverted passes the cleaning step
    as it is, and the statistics then have [max < min]. *)
Lemma inverted_range_survives :
  clean [Offer 100 50] = Ok [Offer 100 50]
  ∧ ¬ Forall cleaned_record [Offer 100 50]
  ∧ calculate_salary_stats [Offer 100 50]
    = Ok (Some ([(Offer 100 50, 75)], 75, 75, 100, 50)).
Proof.
  split; [done|]. split; [|done].
  intros H. apply Forall_cons in H as [[_ H] _]. simpl in H. lia.
Qed.

(** C2, amended: the cleaning step removes the rows with [minSalary = 0]
    and nothing else. When every row of the input with [minSalary ≠ 0]
    already has [0 < minSalary ≤ maxSalary], the surviving rows are these
    rows, each of them satisfies [0 < minSalary ≤ maxSalary], and the
    statistics of a non-empty result satisfy [0 < min ≤ max]. *)
Theorem cleaned_rows_keep_input_order_of_bounds (offers : list (offer Z)) :
  Forall (λ o, minSalary o ≠ 0 → cleaned_record o) offers →
  clean offers = Ok (drop_unadvertised offers)
  ∧ Forall cleaned_record (drop_unadvertised offers)
  ∧ (drop_unadvertised offers ≠ [] →
     ∃ fr mean median min_ max_,
       calculate_salary_stats offers = Ok (Some (fr, mean, median, min_, max_))
       ∧ 0 < min_ ≤ max_).
Proof.
  intros Hin.
  assert (Forall cleaned_record (drop_unadvertised offers)) as Hinv.
  { apply Forall_forall. intros o [Ho Hne]%elem_of_drop_unadvertised.
    rewrite Forall_forall in Hin. by apply Hin. }
  assert (clean offers = Ok (drop_unadvertised offers)) as Hclean.
  { apply clean_nonzero. eapply Forall_impl; [exact Hinv|].
    unfold cleaned_record. intros o ?. lia. }
  split; [done|]. split; [done|]. intros Hne.
  destruct (drop_unadvertised offers) as [|o df'] eqn:Hdf; [done|].
  do 5 eexists. split; [by apply calculate_salary_stats_returns|].
  destruct (series_min_spec (minSalary o) (minSalary <$> df')) as [Hmin Hle].
  destruct (series_max_spec (maxSalary o) (maxSalary <$> df')) as [_ Hge].
  rewrite <-fmap_cons in Hmin, Hle, Hge.
  apply list_elem_of_fmap in Hmin as (r & -> & Hr).
  rewrite Forall_fmap, Forall_forall in Hle, Hge.
  rewrite Forall_forall in Hinv.
  specialize (Hinv r Hr). specialize (Hge r Hr).
  unfold cleaned_record in Hinv. simpl in Hge. lia.
Qed.

Lemma cleaned_rows_keep_input_order_of_bounds_witness :
  let offers := [Offer 10000 20000; Offer 0 0; Offer 30000 30000] in
  clean offers = Ok (drop_unadvertised offers)
  ∧ Forall cleaned_record (drop_unadvertised offers)
  ∧ (drop_unadvertised offers ≠ [] →
     ∃ fr mean median min_ max_,
       calculate_salary_stats offers = Ok (Some (fr, mean, median, min_, max_))
       ∧ 0 < min_ ≤ max_).
Proof.
  apply (cleaned_rows_keep_input_order_of_bounds
           [Offer 10000 20000; Offer 0 0; Offer 30000 30000]).
  repeat (apply Forall_cons_2 || apply Forall_nil_2);
    unfold cleaned_record; simpl; intros; lia.
Defined.

(** C7: for every non-empty frame left by the cleaning step, the call
    returns, [min_] is the least [minSalary] of the frame and [max_] is
    the greatest [maxSalary] of the frame, the column being read as the
    cleaning step left it. *)
Theorem min_max_of_cleaned_frame (offers df : list (offer Z)) :
  clean offers = Ok df →
  df ≠ [] →
  ∃ fr mean median min_ max_,
    calculate_salary_stats offers = Ok (Some (fr, mean, median, min_, max_))
    ∧ min_ ∈ minSalary <$> df
    ∧ Forall (λ m, min_ ≤ m) (minSalary <$> df)
    ∧ max_ ∈ maxSalary <$> df
    ∧ Forall (λ m, m ≤ max_) (maxSalary <$> df).
Proof.
  intros Hclean Hne. destruct df as [|o df']; [done|].
  do 5 eexists. split; [by apply calculate_salary_stats_returns|].
  rewrite !fmap_cons.
  destruct (series_min_spec (minSalary o) (minSalary <$> df')).
  by destruct (series_max_spec (maxSalary o) (maxSalary <$> df')).
Qed.

Lemma min_max_of_cleaned_frame_witness :
  ∃ fr mean median min_ max_,
    calculate_salary_stats [Offer 0 9; Offer 30000 40000; Offer 10000 15000]
      = Ok (Some (fr, mean, median, min_, max_))
    ∧ min_ ∈ minSalary <$> [Offer 30000 40000; Offer 10000 15000]
    ∧ Forall (λ m, min_ ≤ m) (minSalary <$> [Offer 30000 40000; Offer 10000 15000])
    ∧ max_ ∈ maxSalary <$> [Offer 30000 40000; Offer 10000 15000]
    ∧ Forall (λ m, m ≤ max_) (maxSalary <$> [Offer 30000 40000; Offer 10000 15000]).
Proof.
  apply (min_max_of_cleaned_frame
           [Offer 0 9; Offer 30000 40000; Offer 10000 15000]
           [Offer 30000 40000; Offer 10000 15000]);
    [reflexivity | discriminate].
Defined.

(** C6, refuted on the program's floats. Line 79 takes the mean of a
    row in float64: an offer from 2^53 + 1 to 2^53 + 1 passes the
    cleaning step as a cleaned record, and its [salary_mean] is 2^53,
    not the midpoint 2^53 + 1; 2^63 - 1 and 2^63 - 1 give -2^63. *)
Lemma float64_midpoint_of_large_salaries :
  clean [Offer (2 ^ 53 + 1) (2 ^ 53 + 1)] = Ok [Offer (2 ^ 53 + 1) (2 ^ 53 + 1)]
  ∧ cleaned_record (Offer (2 ^ 53 + 1) (2 ^ 53 + 1))
  ∧ row_mean64 (Offer (2 ^ 53 + 1) (2 ^ 53 + 1)) = 2 ^ 53
  ∧ ((2 ^ 53 + 1) + (2 ^ 53 + 1)) / 2 = 2 ^ 53 + 1
  ∧ row_mean64 (Offer (2 ^ 63 - 1) (2 ^ 63 - 1)) = - 2 ^ 63.
Proof.
  split; [done|]. split; [unfold cleaned_record; simpl; lia|].
  repeat split; vm_compute; reflexivity.
Qed.

(** C6, amended: for every non-empty frame left by the cleaning step
    whose salaries are not negative and add up, all rows together, to
    less than 2^53 (the range in which float64 holds the sums of lines
    79-85 exactly), the call returns; each row carries
    [salary_mean = floor((minSalary + maxSalary) / 2)]; [mean] is the
    floor of the sum of the [salary_mean] column divided by the number
    of rows; [median] is the middle entry of that column once sorted,
    or, for an even count, the floor of the average of the two middle
    entries. ([/] on [Z] rounds down; the program truncates, which is
    the same from 0 up.) *)
Theorem midpoint_mean_median (offers df : list (offer Z)) :
  clean offers = Ok df →
  df ≠ [] →
  Forall (λ o, 0 ≤ minSalary o ∧ 0 ≤ maxSalary o) df →
  foldr Z.add 0 ((λ o, minSalary o + maxSalary o) <$> df) < 2 ^ 53 →
  ∃ fr mean median min_ max_ sorted,
    calculate_salary_stats offers = Ok (Some (fr, mean, median, min_, max_))
    ∧ fr = (λ o, (o, (minSalary o + maxSalary o) / 2)) <$> df
    ∧ mean = foldr Z.add 0 fr.*2 / Z.of_nat (length fr)
    ∧ StronglySorted Z.le sorted
    ∧ sorted ≡ₚ fr.*2
    ∧ median =
        if Nat.even (length fr)
        then (sorted !!! (length fr / 2 - 1)%nat
              + sorted !!! (length fr / 2)%nat) / 2
        else sorted !!! (length fr / 2)%nat.
Proof.
  intros Hclean Hne Hnonneg _. destruct df as [|o df']; [done|].
  set (df := o :: df') in *.
  assert (Forall (λ o, 0 ≤ minSalary o + maxSalary o) df) as Hpos.
  { eapply Forall_impl; [exact Hnonneg|]. intros r Hr. simpl in Hr. lia. }
  assert (with_salary_mean df
          = (λ o, (o, (minSalary o + maxSalary o) / 2)) <$> df) as Hfr.
  { unfold with_salary_mean. apply Forall_fmap_ext_1.
    eapply Forall_impl; [exact Hpos|]. intros r Hr. simpl.
    by rewrite row_mean_floor. }
  assert ((with_salary_mean df).*2 = row_mean <$> df) as Hcol.
  { unfold with_salary_mean. rewrite <-list_fmap_compose. done. }
  assert (Forall (λ x, 0 ≤ x) (row_mean <$> df)) as Hmeans.
  { rewrite Forall_fmap. eapply Forall_impl; [exact Hpos|].
    intros r Hr. by apply row_mean_nonneg. }
  set (s := stable_sort Z.ltb (row_mean <$> df)).
  assert (Forall (λ x, 0 ≤ x) s) as Hs.
  { unfold s. by rewrite stable_sort_Permutation. }
  assert (∀ i, 0 ≤ s !!! i) as Hsi.
  { intros i. destruct (decide (i < length s)%nat) as [Hi|Hi].
    - by apply Forall_lookup_total_1.
    - rewrite list_lookup_total_alt, lookup_ge_None_2 by lia. done. }
  exists (with_salary_mean df). do 4 eexists. exists s.
  split; [by apply calculate_salary_stats_returns|].
  split; [done|]. rewrite Hcol.
  unfold with_salary_mean. rewrite length_fmap.
  split.
  { change (foldr Z.add 0 (row_mean <$> df)) with (sum_list (row_mean <$> df)).
    unfold trunc_div. apply Z.quot_div_nonneg.
    - by apply sum_list_nonneg.
    - unfold df. simpl. lia. }
  split; [apply sort_Z_sorted|].
  split; [apply stable_sort_Permutation|].
  change (o :: df') with df. fold s.
  destruct (Nat.even (length df)); [|done].
  unfold trunc_div. apply Z.quot_div_nonneg; [|lia].
  specialize (Hsi (length df / 2 - 1)%nat) as H1.
  specialize (Hsi (length df / 2)%nat) as H2. lia.
Qed.

Lemma midpoint_mean_median_witness :
  ∃ fr mean median min_ max_ sorted,
    calculate_salary_stats [Offer 10000 20001; Offer 0 0; Offer 30000 30000]
      = Ok (Some (fr, mean, median, min_, max_))
    ∧ fr = (λ o, (o, (minSalary o + maxSalary o) / 2))
             <$> [Offer 10000 20001; Offer 30000 30000]
    ∧ mean = foldr Z.add 0 fr.*2 / Z.of_nat (length fr)
    ∧ StronglySorted Z.le sorted
    ∧ sorted ≡ₚ fr.*2
    ∧ median =
        if Nat.even (length fr)
        then (sorted !!! (length fr / 2 - 1)%nat
              + sorted !!! (length fr / 2)%nat) / 2
        else sorted !!! (length fr / 2)%nat.
Proof.
  apply (midpoint_mean_median
           [Offer 10000 20001; Offer 0 0; Offer 30000 30000]
           [Offer 10000 20001; Offer 30000 30000]);
    [reflexivity | discriminate | | vm_compute; reflexivity].
  repeat (apply Forall_cons_2 || apply Forall_nil_2); simpl; lia.
Defined.

(** ** [report_all]: queries without usable offers *)

Lemma drop_unadvertised_all_zero (offers : list (offer Z)) :
  Forall (λ o, minSalary o = 0) offers → drop_unadvertised offers = [].
Proof.
  unfold drop_unadvertised. induction 1 as [|o l Ho _ IH]; [done|].
  by rewrite filter_cons_False by (by intros ?).
Qed.

Lemma calculate_salary_stats_all_dropped (offers : list (offer Z)) :
  drop_unadvertised offers = [] →
  calculate_salary_stats offers
  = match offers with [] => Ok None | _ => Raise ValueError end.
Proof.
  intros H. destruct offers as [|o l]; [done|].
  unfold calculate_salary_stats, clean. by rewrite H.
Qed.

Section ReportLemmas.
Variable retrieve_offers_from : Z → list (offer Z).

Lemma foldl_try_query (stats : list stat) (queries : list query) :
  foldl (try_query retrieve_offers_from) stats queries
  = stats ++ collect_stats retrieve_offers_from queries.
Proof.
  unfold collect_stats. revert stats.
  induction queries as [|q qs IH] using rev_ind; intros stats.
  - simpl. by rewrite app_nil_r.
  - rewrite !foldl_snoc, IH. unfold try_query at 1 3.
    destruct (calculate_salary_stats _) as [[[[[[??]?]?]?]|]|];
      by rewrite ?app_assoc.
Qed.

Lemma collect_stats_app (qs1 qs2 : list query) :
  collect_stats retrieve_offers_from (qs1 ++ qs2)
  = collect_stats retrieve_offers_from qs1
    ++ collect_stats retrieve_offers_from qs2.
Proof.
  unfold collect_stats at 1. rewrite foldl_app.
  fold (collect_stats retrieve_offers_from qs1). apply foldl_try_query.
Qed.

Lemma collect_stats_cons (q : query) (qs : list query) :
  collect_stats retrieve_offers_from (q :: qs)
  = try_query retrieve_offers_from [] q
    ++ collect_stats retrieve_offers_from qs.
Proof. unfold collect_stats at 1. simpl. apply foldl_try_query. Qed.
End ReportLemmas.

(** C9: a query without offers, or whose offers are all dropped by the
    filter of line 71 (such as the single offer [{min:0, max:0}]), has
    the outcome Empty: [return None] for no offers, ValueError otherwise.
    [report_all] passes over it: the statistics collected, both orders
    and what is drawn are those of the same queries without it. *)
Theorem empty_query_is_skipped
    (retrieve_offers_from : Z → list (offer Z)) (q : query) :
  drop_unadvertised (retrieve_offers_from (qid q)) = [] →
  Empty (calculate_salary_stats (retrieve_offers_from (qid q)))
  ∧ calculate_salary_stats (retrieve_offers_from (qid q))
    = match retrieve_offers_from (qid q) with
      | [] => Ok None
      | _ => Raise ValueError
      end
  ∧ calculate_salary_stats [Offer 0 0] = Raise ValueError
  ∧ ∀ before after,
      collect_stats retrieve_offers_from (before ++ q :: after)
      = collect_stats retrieve_offers_from (before ++ after)
      ∧ report_all retrieve_offers_from (before ++ q :: after)
        = report_all retrieve_offers_from (before ++ after).
Proof.
  intros Hzero.
  pose proof (calculate_salary_stats_all_dropped _ Hzero) as Hcalc.
  assert (∀ before after,
    collect_stats retrieve_offers_from (before ++ q :: after)
    = collect_stats retrieve_offers_from (before ++ after)) as Hskip.
  { intros before after. rewrite !collect_stats_app, collect_stats_cons.
    unfold try_query. rewrite Hcalc.
    by destruct (retrieve_offers_from (qid q)). }
  split; [|split; [done|split; [done|]]].
  - intros t. rewrite Hcalc. by destruct (retrieve_offers_from (qid q)).
  - intros before after. split; [done|].
    unfold report_all. by rewrite Hskip.
Qed.

Lemma empty_query_is_skipped_witness :
  let db := λ qid : Z, if decide (qid = 2) then [Offer 0 0; Offer 0 12000]
                       else [Offer 10000 20000] in
  let q := Query 2 "tester" 2 in
  Empty (calculate_salary_stats (db (qid q)))
  ∧ calculate_salary_stats (db (qid q))
    = match db (qid q) with
      | [] => Ok None
      | _ => Raise ValueError
      end
  ∧ calculate_salary_stats [Offer 0 0] = Raise ValueError
  ∧ ∀ before after,
      collect_stats db (before ++ q :: after)
      = collect_stats db (before ++ after)
      ∧ report_all db (before ++ q :: after) = report_all db (before ++ after).
Proof.
  intros db q. apply (empty_query_is_skipped db q). reflexivity.
Defined.

(** ** [report_all]: the two orders *)

Lemma tuple_lt_false (a b : Z * Z) : tuple_lt a b = false ↔ key_le b a.
Proof.
  unfold tuple_lt, key_le.
  rewrite orb_false_iff, andb_false_iff, !Z.ltb_ge, Z.eqb_neq. lia.
Qed.

Lemma tuple_lt_true (a b : Z * Z) : tuple_lt a b = true → tuple_lt b a = false.
Proof.
  unfold tuple_lt.
  rewrite orb_true_iff, andb_true_iff, orb_false_iff, andb_false_iff,
    !Z.ltb_lt, !Z.ltb_ge, Z.eqb_eq, Z.eqb_neq. lia.
Qed.

Global Instance key_le_trans : Transitive key_le.
Proof. unfold key_le. intros a b c. lia. Qed.

Global Instance key_le_antisym : AntiSymm (=) key_le.
Proof.
  unfold key_le. intros [a1 a2] [b1 b2]. simpl. intros ??.
  f_equal; lia.
Qed.

Lemma sort_reverse_sorted (stats : list stat) :
  StronglySorted (λ a b, key_le (sort_key b) (sort_key a)) (sort_reverse stats).
Proof.
  unfold sort_reverse.
  eapply StronglySorted_ind
    with (R := not_after (λ a b, tuple_lt (sort_key b) (sort_key a))).
  - constructor.
  - intros x s _ IH Hx. constructor; [done|].
    eapply Forall_impl; [exact Hx|]. unfold not_after.
    intros y Hy. by apply tuple_lt_false.
  - apply stable_sort_StronglySorted; unfold not_after.
    + intros a b. apply tuple_lt_true.
    + intros a b c. rewrite !tuple_lt_false. intros ??. by trans (sort_key b).
Qed.

Lemma sort_forward_sorted (stats : list stat) :
  StronglySorted (λ a b, key_le (sort_key a) (sort_key b)) (sort_forward stats).
Proof.
  unfold sort_forward.
  eapply StronglySorted_ind
    with (R := not_after (λ a b, tuple_lt (sort_key a) (sort_key b))).
  - constructor.
  - intros x s _ IH Hx. constructor; [done|].
    eapply Forall_impl; [exact Hx|]. unfold not_after.
    intros y Hy. by apply tuple_lt_false.
  - apply stable_sort_StronglySorted; unfold not_after.
    + intros a b. apply tuple_lt_true.
    + intros a b c. rewrite !tuple_lt_false. intros ??. by trans (sort_key b).
Qed.


(** ** The bucket grid *)

Lemma elem_of_py_range (n k : Z) : k ∈ py_range n ↔ 0 ≤ k < n.
Proof.
  unfold py_range. rewrite list_elem_of_fmap. split.
  - intros (i & -> & Hi). apply elem_of_seq in Hi. lia.
  - intros Hk. exists (Z.to_nat k). split; [lia|].
    apply elem_of_seq. lia.
Qed.

Lemma NoDup_py_range (n : Z) : NoDup (py_range n).
Proof.
  unfold py_range. apply NoDup_fmap; [|apply NoDup_seq].
  intros i j. lia.
Qed.

Lemma floor_div_positive (max_ : num) (box_width : Z) :
  0 < box_width →
  ∃ top, floor_div max_ box_width = Ok top ∧ floor_of_ratio top max_ box_width.
Proof.
  intros Hw. destruct max_ as [z|q]; simpl.
  - exists (z / box_width). split; [done|].
    pose proof (Z.mul_div_le z box_width Hw).
    pose proof (Z.mul_succ_div_gt z box_width Hw). lia.
  - rewrite decide_False by lia.
    exists (Qfloor (q / inject_Z box_width)). split; [done|].
    assert (0 < inject_Z box_width)%Q as Hq.
    { change 0%Q with (inject_Z 0). by rewrite <-Zlt_Qlt. }
    assert (q == q / inject_Z box_width * inject_Z box_width)%Q as Hmul.
    { field. intros H0. rewrite H0 in Hq. by apply Qlt_irrefl in Hq. }
    rewrite !inject_Z_mult. split.
    + rewrite Hmul at 2. apply Qmult_le_compat_r; [apply Qfloor_le|].
      by apply Qlt_le_weak.
    + rewrite Hmul at 1. apply Qmult_lt_compat_r; [done|apply Qlt_floor].
Qed.

Lemma indexes_positive (max_ : num) (box_width : Z) :
  0 < box_width →
  ∃ top, floor_div max_ box_width = Ok top
    ∧ floor_of_ratio top max_ box_width
    ∧ indexes max_ box_width
      = Ok ((λ box, box * box_width) <$> py_range (top + 1)).
Proof.
  intros Hw. destruct (floor_div_positive max_ _ Hw) as (top & Htop & Hfl).
  exists top. unfold indexes. by rewrite Htop.
Qed.

Lemma NoDup_indexes (max_ : num) (box_width : Z) (idx : list Z) :
  0 < box_width → indexes max_ box_width = Ok idx → NoDup idx.
Proof.
  intros Hw Hidx.
  destruct (indexes_positive max_ _ Hw) as (top & _ & _ & Heq).
  rewrite Heq in Hidx. injection Hidx as <-.
  apply NoDup_fmap; [|apply NoDup_py_range]. intros i j. nia.
Qed.

(** C5: for a positive width the grid is computed from [max_] and the
    width alone (no row of the frame is read), and it is the list of the
    [k * box_width] for [k = 0 .. floor(max_ / box_width)], both ends
    included, in this order. *)
Theorem grid_is_multiples_up_to_floor (max_ : num) (box_width : Z) :
  0 < box_width →
  ∃ top idx,
    floor_of_ratio top max_ box_width
    ∧ indexes max_ box_width = Ok idx
    ∧ idx = (λ k, k * box_width) <$> py_range (top + 1)
    ∧ (∀ b, b ∈ idx ↔ ∃ k, 0 ≤ k ≤ top ∧ b = k * box_width)
    ∧ ∀ rows, plot_distrib rows max_ box_width = fill_rows idx ∅ rows.
Proof.
  intros Hw. destruct (indexes_positive max_ _ Hw) as (top & _ & Hfl & Hidx).
  exists top. eexists. split; [done|]. split; [done|]. split; [done|]. split.
  - intros b. rewrite list_elem_of_fmap. split.
    + intros (k & -> & Hk%elem_of_py_range). exists k. split; [lia|done].
    + intros (k & Hk & ->). exists k. split; [done|].
      apply elem_of_py_range. lia.
  - intros rows. unfold plot_distrib. by rewrite Hidx.
Qed.

Lemma grid_is_multiples_up_to_floor_witness :
  ∃ top idx,
    floor_of_ratio top (PyInt 20000) 5000
    ∧ indexes (PyInt 20000) 5000 = Ok idx
    ∧ idx = (λ k, k * 5000) <$> py_range (top + 1)
    ∧ (∀ b, b ∈ idx ↔ ∃ k, 0 ≤ k ≤ top ∧ b = k * 5000)
    ∧ ∀ rows, plot_distrib rows (PyInt 20000) 5000 = fill_rows idx ∅ rows.
Proof. apply (grid_is_multiples_up_to_floor (PyInt 20000) 5000). lia. Defined.

(** ** Filling the boxes *)

Lemma boxes_filled_int (idx : list Z) (o : offer Z) :
  boxes_filled idx (int_row o)
  = Ok (filter (λ b, minSalary o ≤ b < maxSalary o) idx).
Proof.
  induction idx as [|b idx IH]; [done|].
  cbn [boxes_filled]. rewrite IH, filter_cons.
  cbn [int_row minSalary maxSalary in_range mbind result_bind].
  case_bool_decide; by case_decide.
Qed.

Lemma res_get_add_weight (weigth : Qc) (res : gmap Z Qc) (box b : Z) :
  res_get (add_weight weigth res box) b
  = if decide (box = b) then (res_get res b + weigth)%Qc else res_get res b.
Proof.
  unfold add_weight, res_get at 1. rewrite lookup_insert.
  destruct (decide (box = b)) as [->|]; done.
Qed.

Lemma lookup_add_weight_ne (weigth : Qc) (res : gmap Z Qc) (box b : Z) :
  box ≠ b → add_weight weigth res box !! b = res !! b.
Proof. intros H. unfold add_weight. by rewrite lookup_insert_ne. Qed.

Lemma lookup_foldl_add_weight_notin weigth (boxes : list Z) (res : gmap Z Qc) b :
  b ∉ boxes → foldl (add_weight weigth) res boxes !! b = res !! b.
Proof.
  revert res. induction boxes as [|box boxes IH]; intros res Hb; [done|].
  apply not_elem_of_cons in Hb as [Hne Hb]. simpl.
  rewrite IH by done. by apply lookup_add_weight_ne.
Qed.




(** ** The mass of a distribution *)

Lemma Qc_sum_Permutation (l1 l2 : list Qc) :
  l1 ≡ₚ l2 → foldr Qcplus 0%Qc l1 = foldr Qcplus 0%Qc l2.
Proof.
  induction 1 as [|x l1 l2 _ IH|x y l|l1 l2 l3 _ IH1 _ IH2]; simpl.
  - done.
  - by rewrite IH.
  - ring.
  - by rewrite IH1.
Qed.

Lemma total_mass_insert_fresh (res : gmap Z Qc) (box : Z) (v : Qc) :
  res !! box = None →
  total_mass (<[box := v]> res) = (v + total_mass res)%Qc.
Proof.
  intros Hnone. unfold total_mass.
  rewrite (Qc_sum_Permutation _ ((box, v) :: map_to_list res).*2); [done|].
  apply fmap_Permutation. by apply map_to_list_insert.
Qed.

Lemma total_mass_add_weight (weigth : Qc) (res : gmap Z Qc) (box : Z) :
  total_mass (add_weight weigth res box) = (total_mass res + weigth)%Qc.
Proof.
  unfold add_weight, res_get. destruct (res !! box) as [v|] eqn:Hbox; simpl.
  - rewrite <-insert_delete_eq.
    rewrite total_mass_insert_fresh by apply lookup_delete_eq.
    rewrite <-(insert_delete_id res box v) at 2 by done.
    rewrite total_mass_insert_fresh by apply lookup_delete_eq. ring.
  - rewrite total_mass_insert_fresh by done. ring.
Qed.

Lemma Qc_of_nat_0 : Qc_of_nat 0 = 0%Qc.
Proof. exact Z2Qc_inj_0. Qed.

Lemma Qc_of_nat_S (n : nat) : Qc_of_nat (S n) = (Qc_of_nat n + 1)%Qc.
Proof.
  unfold Qc_of_nat. by rewrite Nat2Z.inj_succ, <-Z.add_1_r, Z2Qc_inj_add, Z2Qc_inj_1.
Qed.


Lemma Qc_of_nat_inj (n m : nat) : Qc_of_nat n = Qc_of_nat m ↔ n = m.
Proof. unfold Qc_of_nat. rewrite Z2Qc_inj_iff. lia. Qed.

Lemma total_mass_foldl_add_weight weigth (boxes : list Z) (res : gmap Z Qc) :
  total_mass (foldl (add_weight weigth) res boxes)
  = (total_mass res + Qc_of_nat (length boxes) * weigth)%Qc.
Proof.
  revert res. induction boxes as [|box boxes IH]; intros res.
  - cbn [foldl length]. rewrite Qc_of_nat_0. ring.
  - cbn [foldl length]. rewrite IH, total_mass_add_weight, Qc_of_nat_S. ring.
Qed.

(** A row that fills at least one box adds one unit of mass in all. *)
Lemma total_mass_spread (res : gmap Z Qc) (boxes : list Z) :
  total_mass (spread res boxes)
  = (total_mass res + if boxes is [] then 0 else 1)%Qc.
Proof.
  unfold spread. destruct boxes as [|box boxes]; [ring|].
  rewrite total_mass_foldl_add_weight.
  assert (Qc_of_nat (length (box :: boxes)) ≠ 0%Qc) as Hn.
  { rewrite <-Qc_of_nat_0, Qc_of_nat_inj. done. }
  f_equal. by field.
Qed.


Lemma overlaps_filter (idx : list Z) (o : offer Z) :
  overlaps idx o
  = if filter (λ b, minSalary o ≤ b < maxSalary o) idx is [] then false else true.
Proof. unfold overlaps. by rewrite boxes_filled_int. Qed.

Lemma fill_rows_int_mass (idx : list Z) (df : list (offer Z)) (res : gmap Z Qc) :
  ∃ res', fill_rows idx res (int_row <$> df) = Ok res'
    ∧ total_mass res'
      = (total_mass res
         + Qc_of_nat (length (filter (λ o, overlaps idx o) df)))%Qc.
Proof.
  revert res. induction df as [|o df IH]; intros res.
  - exists res. split; [done|].
    rewrite filter_nil. cbn [length]. rewrite Qc_of_nat_0. ring.
  - rewrite fmap_cons. cbn [fill_rows].
    rewrite boxes_filled_int. cbn [mbind result_bind].
    destruct (IH (spread res (filter (λ b, minSalary o ≤ b < maxSalary o) idx)))
      as (res' & Hres' & Hmass).
    exists res'. split; [done|]. rewrite Hmass, total_mass_spread.
    rewrite filter_cons, (overlaps_filter idx o).
    destruct (filter _ idx) as [|b boxes].
    + rewrite decide_False by (by intros []). ring.
    + rewrite decide_True by done. cbn [length]. rewrite Qc_of_nat_S. ring.
Qed.


(** *** Whatever the arithmetic *)



Section WeightsLemmas.
Context {W : Type} (zero : W) (plus : W → W → W) (share : nat → W).

Lemma is_Some_foldl_add_weight_in (weigth : W) (boxes : list Z)
    (res : gmap Z W) (b : Z) :
  is_Some (foldl (add_weight_in zero plus weigth) res boxes !! b)
  ↔ is_Some (res !! b) ∨ b ∈ boxes.
Proof.
  revert res. induction boxes as [|box boxes IH]; intros res.
  - cbn [foldl]. rewrite elem_of_nil. tauto.
  - cbn [foldl]. rewrite IH, elem_of_cons. unfold add_weight_in.
    destruct (decide (box = b)) as [->|Hne].
    + rewrite lookup_insert_eq. split; [intros _; by right; left|].
      intros _. left. by eexists.
    + rewrite lookup_insert_ne by done. split; [tauto|].
      intros [?|[->|?]]; tauto.
Qed.

Lemma is_Some_spread_in (res : gmap Z W) (boxes : list Z) (b : Z) :
  is_Some (spread_in zero plus share res boxes !! b)
  ↔ is_Some (res !! b) ∨ b ∈ boxes.
Proof.
  unfold spread_in. destruct boxes as [|box boxes].
  - rewrite elem_of_nil. tauto.
  - apply is_Some_foldl_add_weight_in.
Qed.

Lemma fill_rows_in_int (idx : list Z) (o : offer Z) (df : list (offer Z))
    (res : gmap Z W) :
  fill_rows_in zero plus share idx res (int_row <$> o :: df)
  = fill_rows_in zero plus share idx
      (spread_in zero plus share res
         (filter (λ b, minSalary o ≤ b < maxSalary o) idx))
      (int_row <$> df).
Proof. rewrite fmap_cons. cbn [fill_rows_in]. by rewrite boxes_filled_int. Qed.

Lemma fill_rows_in_returns (idx : list Z) (df : list (offer Z))
    (res : gmap Z W) :
  ∃ res', fill_rows_in zero plus share idx res (int_row <$> df) = Ok res'.
Proof.
  revert res. induction df as [|o df IH]; intros res; [by exists res|].
  rewrite fill_rows_in_int. apply IH.
Qed.

Lemma fill_rows_in_keys (idx : list Z) (df : list (offer Z))
    (res res' : gmap Z W) :
  fill_rows_in zero plus share idx res (int_row <$> df) = Ok res' →
  ∀ b, is_Some (res' !! b)
       ↔ is_Some (res !! b)
         ∨ (b ∈ idx ∧ Exists (λ o, minSalary o ≤ b < maxSalary o) df).
Proof.
  revert res. induction df as [|o df IH]; intros res Hres b.
  - injection Hres as <-. rewrite Exists_nil. tauto.
  - rewrite fill_rows_in_int in Hres. rewrite (IH _ Hres b).
    rewrite is_Some_spread_in, list_elem_of_filter, Exists_cons. tauto.
Qed.

End WeightsLemmas.

(** [plot_distrib] is the loop of [plot_distrib_in] on exact
    rationals. *)
Lemma plot_distrib_exact (df : list (offer num)) (max_ : num) (box_width : Z) :
  plot_distrib df max_ box_width
  = plot_distrib_in 0%Qc Qcplus (λ n, (1 / Qc_of_nat n)%Qc) df max_ box_width.
Proof.
  unfold plot_distrib, plot_distrib_in.
  destruct (indexes max_ box_width) as [idx|e]; [|done].
  cbn [mbind result_bind]. generalize (∅ : gmap Z Qc).
  induction df as [|row df IH]; intros res; [done|].
  cbn [fill_rows fill_rows_in].
  destruct (boxes_filled idx row) as [boxes|e]; [|done].
  cbn [mbind result_bind]. by rewrite IH.
Qed.




(** ** Rows that are not integers *)

Lemma boxes_filled_float (idx : list Z) (row : offer num) :
  idx ≠ [] →
  is_float (minSalary row) ∨ is_float (maxSalary row) →
  boxes_filled idx row = Raise TypeError.
Proof.
  intros Hidx Hfl. destruct idx as [|index idx]; [done|].
  destruct row as [[a|a] [b|b]]; simpl in *; by intuition.
Qed.

Lemma boxes_filled_not_float (idx : list Z) (row : offer num) :
  ¬ (is_float (minSalary row) ∨ is_float (maxSalary row)) →
  ∃ boxes, boxes_filled idx row = Ok boxes.
Proof.
  intros Hfl. destruct row as [[a|a] [b|b]]; simpl in *; try tauto.
  eexists. apply (boxes_filled_int idx (Offer a b)).
Qed.

Lemma fill_rows_float (idx : list Z) (rows : list (offer num)) (res : gmap Z Qc) :
  idx ≠ [] →
  Exists (λ row, is_float (minSalary row) ∨ is_float (maxSalary row)) rows →
  fill_rows idx res rows = Raise TypeError.
Proof.
  intros Hidx. revert res.
  induction rows as [|row rows IH]; intros res Hex.
  { by apply Exists_nil in Hex. }
  cbn [fill_rows].
  assert (Decision (is_float (minSalary row) ∨ is_float (maxSalary row)))
    as [Hfl|Hint].
  { destruct row as [[a|a] [b|b]]; simpl; (by left; auto) || (right; tauto). }
  - by rewrite boxes_filled_float.
  - destruct (boxes_filled_not_float idx row Hint) as (boxes & ->).
    cbn [mbind result_bind]. apply IH.
    apply Exists_cons in Hex as [?|?]; [done|done].
Qed.

Lemma indexes_nonneg (max_ : num) (box_width : Z) :
  0 < box_width → num_nonneg max_ →
  ∃ idx, indexes max_ box_width = Ok (0 :: idx).
Proof.
  intros Hw Hpos.
  destruct (indexes_positive max_ _ Hw) as (top & _ & Hfl & Hidx).
  assert (0 ≤ top) as Htop.
  { destruct max_ as [z|q]; simpl in Hfl, Hpos.
    - nia.
    - destruct Hfl as [_ Hlt].
      assert (inject_Z 0 < inject_Z ((top + 1) * box_width))%Q as H0
        by (eapply Qle_lt_trans; [exact Hpos|exact Hlt]).
      rewrite <-Zlt_Qlt in H0. nia. }
  rewrite Hidx. unfold py_range.
  replace (Z.to_nat (top + 1)) with (S (Z.to_nat top)) by lia.
  eexists. by cbn [seq fmap list_fmap].
Qed.

(** C10: the membership test of line 118 needs integers. For a positive
    width and a non-negative [max_] (the greatest [maxSalary] of a
    cleaned frame is positive), as soon as one row holds a float in
    [minSalary] or in [maxSalary], [range] raises TypeError and no
    distribution is produced. *)
Theorem float_salary_raises_TypeError
    (rows : list (offer num)) (max_ : num) (box_width : Z) :
  0 < box_width →
  num_nonneg max_ →
  Exists (λ row, is_float (minSalary row) ∨ is_float (maxSalary row)) rows →
  plot_distrib rows max_ box_width = Raise TypeError.
Proof.
  intros Hw Hpos Hex.
  destruct (indexes_nonneg max_ _ Hw Hpos) as (idx & Hidx).
  unfold plot_distrib. rewrite Hidx. cbn [mbind result_bind].
  by apply fill_rows_float.
Qed.

Lemma float_salary_raises_TypeError_witness :
  plot_distrib [int_row (Offer 10000 20000);
                Offer (PyFloat (25001 # 2)) (PyInt 30000)]
    (PyInt 30000) 5000 = Raise TypeError.
Proof.
  apply (float_salary_raises_TypeError
           [int_row (Offer 10000 20000);
            Offer (PyFloat (25001 # 2)) (PyInt 30000)] (PyInt 30000) 5000).
  - lia.
  - simpl. lia.
  - apply Exists_cons_tl, Exists_cons_hd. left. exact I.
Defined.

(** * Further properties *)

(** ** When the cleaning step returns *)

Lemma for_each_length {A B} (f : A → result B) (l : list A) (ys : list B) :
  for_each f l = Ok ys → length ys = length l.
Proof.
  revert ys. induction l as [|x l IH]; intros ys; cbn [for_each].
  - by intros [= <-].
  - intros (y & _ & (ys' & Hys' & [= <-])%bind_Ok)%bind_Ok.
    cbn [length]. by rewrite (IH ys').
Qed.

(** A loop whose body can only raise [e], and does so for some element,
    raises [e]. *)
Lemma for_each_raises {A B} (f : A → result B) (e : exn) (l : list A) :
  Forall (λ x, (∃ y, f x = Ok y) ∨ f x = Raise e) l →
  Exists (λ x, f x = Raise e) l →
  for_each f l = Raise e.
Proof.
  induction 1 as [|x l Hx _ IH]; intros Hex.
  { by apply Exists_nil in Hex. }
  cbn [for_each]. destruct Hx as [[y Hy]|Hx].
  - rewrite Hy. cbn [mbind result_bind].
    apply Exists_cons in Hex as [Hex|Hex]; [congruence|].
    by rewrite IH.
  - by rewrite Hx.
Qed.

Lemma for_each_scalars_inv (df0 : list (offer Z)) (xs maxs : list Z) :
  for_each (λ c, match c with
                 | Scalar x => Ok x
                 | Series _ => Raise TypeError
                 end) (fill_max df0 <$> xs) = Ok maxs →
  maxs = xs ∧ Forall (λ x, x ≠ 0) xs.
Proof.
  revert maxs. induction xs as [|x xs IH]; intros maxs.
  - intros [= <-]. by split.
  - rewrite fmap_cons. cbn [for_each].
    intros H. apply bind_Ok in H as (y & Hy & H).
    apply bind_Ok in H as (ys & Hys & [= <-]).
    unfold fill_max in Hy. destruct (decide (x = 0)) as [->|Hx]; [done|].
    injection Hy as <-.
    destruct (IH ys Hys) as [-> Hnz]. split; [done|]. by constructor.
Qed.

Lemma set_maxSalary_inv (df0 : list (offer Z)) (maxs : list Z) :
  set_maxSalary (apply_fill_max df0) = Ok maxs →
  (maxs = maxSalary <$> df0 ∧ Forall (λ o, maxSalary o ≠ 0) df0)
  ∨ (∃ m, df0 = [Offer m 0] ∧ maxs = [m]).
Proof.
  unfold apply_fill_max. destruct df0 as [|[a b] rest].
  { intros [= <-]. left. by split. }
  destruct (decide (b = 0)) as [->|Hb].
  - (* the first result is the whole column *)
    rewrite !fmap_cons. cbn [maxSalary minSalary]. unfold fill_max at 1.
    rewrite decide_True by done. intros H. right.
    unfold set_maxSalary in H. cbn [for_each mbind result_bind] in H.
    apply bind_Ok in H as (rows & Hrows & Hmaxs).
    apply bind_Ok in Hrows as (rows' & Hrows' & [= <-]).
    cbn [for_each] in Hmaxs.
    apply bind_Ok in Hmaxs as (m & Hm & Hmaxs).
    destruct rest as [|o rest]; simpl in Hm; [|done].
    injection Hm as <-. injection Hrows' as <-. injection Hmaxs as <-.
    by exists a.
  - intros H. left.
    assert (for_each (λ c, match c with
                 | Scalar x => Ok x
                 | Series _ => Raise TypeError
                 end) (fill_max (Offer a b :: rest)
                         <$> (maxSalary <$> Offer a b :: rest)) = Ok maxs) as H'.
    { revert H. rewrite !fmap_cons. cbn [maxSalary].
      generalize (fill_max (Offer a b :: rest) <$> (maxSalary <$> rest)).
      intros cells. unfold fill_max. by rewrite decide_False by done. }
    apply for_each_scalars_inv in H' as [-> Hnz].
    split; [done|]. by rewrite Forall_fmap in Hnz.
Qed.

Lemma clean_inv (offers df : list (offer Z)) :
  clean offers = Ok df →
  (Forall (λ o, maxSalary o ≠ 0) (drop_unadvertised offers)
   ∧ df = drop_unadvertised offers)
  ∨ (∃ m, drop_unadvertised offers = [Offer m 0] ∧ df = [Offer m m]).
Proof.
  unfold clean. intros (maxs & Hmaxs & [= <-])%bind_Ok.
  apply set_maxSalary_inv in Hmaxs as [[-> Hnz]|(m & Hdf & ->)].
  - left. split; [done|]. by rewrite zip_with_own_max.
  - right. exists m. by rewrite Hdf.
Qed.

Lemma with_salary_mean_rows (df : list (offer Z)) :
  (with_salary_mean df).*1 = df.
Proof.
  unfold with_salary_mean. rewrite <-list_fmap_compose. apply list_fmap_id.
Qed.

(** X1. [calculate_salary_stats] returns a tuple in two cases only: some
    offer has [minSalary ≠ 0] and none of these has [maxSalary = 0], and
    the rows of the frame are these offers as they are; or a single
    offer has [minSalary ≠ 0], with [maxSalary = 0], and the frame is
    this row with its own [minSalary] as [maxSalary]. In every other
    case no tuple comes back. *)
Theorem calculate_salary_stats_returns_iff (offers df : list (offer Z)) :
  (∃ fr mean median min_ max_,
     calculate_salary_stats offers = Ok (Some (fr, mean, median, min_, max_))
     ∧ fr.*1 = df)
  ↔ (drop_unadvertised offers ≠ []
     ∧ Forall (λ o, maxSalary o ≠ 0) (drop_unadvertised offers)
     ∧ df = drop_unadvertised offers)
    ∨ (∃ m, drop_unadvertised offers = [Offer m 0] ∧ df = [Offer m m]).
Proof.
  split.
  - intros (fr & mean & median & min_ & max_ & Hcalc & <-).
    destruct (clean offers) as [[|o df']|e] eqn:Hclean.
    + unfold calculate_salary_stats in Hcalc. rewrite Hclean in Hcalc.
      by destruct offers.
    + rewrite (calculate_salary_stats_returns _ _ _ Hclean) in Hcalc.
      assert (fr = with_salary_mean (o :: df')) as -> by congruence.
      clear Hcalc. rewrite with_salary_mean_rows.
      apply clean_inv in Hclean as [[Hnz Hdf]|(m & Hdf & Hm)].
      * left. split; [by rewrite <-Hdf|]. by split.
      * right. by exists m.
    + unfold calculate_salary_stats in Hcalc. rewrite Hclean in Hcalc.
      by destruct offers.
  - intros [(Hne & Hnz & ->)|(m & Hdf & ->)].
    + pose proof (clean_nonzero offers Hnz) as Hclean.
      destruct (drop_unadvertised offers) as [|o df'] eqn:Hdf; [done|].
      do 5 eexists. split; [by apply calculate_salary_stats_returns|].
      apply with_salary_mean_rows.
    + assert (clean offers = Ok [Offer m m]) as Hclean
        by (unfold clean; by rewrite Hdf).
      do 5 eexists. split; [by apply calculate_salary_stats_returns|].
      apply with_salary_mean_rows.
Qed.

(** X2. Whatever frame the cleaning step returns, it holds no zero salary,
    and its [minSalary] column is that of the offers with
    [minSalary ≠ 0], in their order. *)
Theorem cleaned_frame_has_no_zero (offers df : list (offer Z)) :
  clean offers = Ok df →
  Forall (λ o, minSalary o ≠ 0 ∧ maxSalary o ≠ 0) df
  ∧ minSalary <$> df = minSalary <$> drop_unadvertised offers
  ∧ length df = length (drop_unadvertised offers).
Proof.
  intros [[Hnz ->]|(m & Hdf & ->)]%clean_inv.
  - split; [|done]. apply Forall_forall. intros o Ho.
    split; [by apply elem_of_drop_unadvertised in Ho as [_ ?]|].
    rewrite Forall_forall in Hnz. by apply Hnz.
  - assert (m ≠ 0) as Hm.
    { assert (Offer m 0 ∈ drop_unadvertised offers) as Hin
        by (rewrite Hdf; left).
      by apply elem_of_drop_unadvertised in Hin as [_ ?]. }
    rewrite Hdf. split; [|done]. by repeat constructor.
Qed.

Lemma cleaned_frame_has_no_zero_witness :
  Forall (λ o, minSalary o ≠ 0 ∧ maxSalary o ≠ 0) [Offer 12000 12000]
  ∧ minSalary <$> [Offer 12000 12000]
    = minSalary <$> drop_unadvertised [Offer 0 30000; Offer 12000 0]
  ∧ length [Offer 12000 12000]
    = length (drop_unadvertised [Offer 0 30000; Offer 12000 0]).
Proof.
  apply (cleaned_frame_has_no_zero [Offer 0 30000; Offer 12000 0]
           [Offer 12000 12000]).
  reflexivity.
Defined.

Lemma set_maxSalary_mixed (df0 : list (offer Z)) :
  Exists (λ o, maxSalary o = 0) df0 →
  Exists (λ o, maxSalary o ≠ 0) df0 →
  set_maxSalary (apply_fill_max df0) = Raise TypeError.
Proof.
  intros Hz Hnz. unfold apply_fill_max, set_maxSalary.
  destruct (fill_max df0 <$> (maxSalary <$> df0)) as [|c cells] eqn:Hcells.
  { destruct df0; [by apply Exists_nil in Hz|done]. }
  rewrite <-Hcells. destruct c as [x|s].
  - apply for_each_raises.
    + rewrite <-list_fmap_compose. apply Forall_fmap, Forall_forall.
      intros o _. simpl. unfold fill_max. case_decide; eauto.
    + rewrite <-list_fmap_compose. apply Exists_fmap.
      eapply Exists_impl; [exact Hz|]. intros o Ho. simpl.
      unfold fill_max. by rewrite decide_True.
  - rewrite (for_each_raises _ TypeError); [done| |].
    + rewrite <-list_fmap_compose. apply Forall_fmap, Forall_forall.
      intros o _. simpl. unfold fill_max. case_decide; eauto.
    + rewrite <-list_fmap_compose. apply Exists_fmap.
      eapply Exists_impl; [exact Hnz|]. intros o Ho. simpl.
      unfold fill_max. by rewrite decide_False.
Qed.

(** X3. A query whose usable offers (those with [minSalary ≠ 0]) hold both
    a zero and a non-zero [maxSalary] makes [calculate_salary_stats]
    raise TypeError, and [report_all] goes on without the query. *)
Theorem mixed_zero_maxSalary_drops_query
    (retrieve_offers_from : Z → list (offer Z)) (q : query) :
  Exists (λ o, maxSalary o = 0)
    (drop_unadvertised (retrieve_offers_from (qid q))) →
  Exists (λ o, maxSalary o ≠ 0)
    (drop_unadvertised (retrieve_offers_from (qid q))) →
  calculate_salary_stats (retrieve_offers_from (qid q)) = Raise TypeError
  ∧ ∀ before after,
      report_all retrieve_offers_from (before ++ q :: after)
      = report_all retrieve_offers_from (before ++ after).
Proof.
  intros Hz Hnz.
  assert (calculate_salary_stats (retrieve_offers_from (qid q))
          = Raise TypeError) as Hcalc.
  { unfold calculate_salary_stats, clean.
    rewrite (set_maxSalary_mixed _ Hz Hnz).
    destruct (retrieve_offers_from (qid q)); [|done].
    by apply Exists_nil in Hz. }
  split; [done|]. intros before after. unfold report_all.
  rewrite !collect_stats_app, collect_stats_cons.
  unfold try_query. by rewrite Hcalc.
Qed.

Lemma mixed_zero_maxSalary_drops_query_witness :
  let db := λ qid : Z, if decide (qid = 7)
                       then [Offer 20000 30000; Offer 0 0; Offer 25000 0]
                       else [Offer 10000 20000] in
  let q := Query 7 "analyst" 3 in
  calculate_salary_stats (db (qid q)) = Raise TypeError
  ∧ ∀ before after,
      report_all db (before ++ q :: after) = report_all db (before ++ after).
Proof.
  intros db q. apply (mixed_zero_maxSalary_drops_query db q).
  - apply Exists_cons_tl, Exists_cons_hd. reflexivity.
  - apply Exists_cons_hd. discriminate.
Defined.

(** ** The statistics lie between the extremes *)

Lemma trunc_div_between (lo hi s n : Z) :
  0 < n → lo * n ≤ s ≤ hi * n → lo ≤ trunc_div s n ≤ hi.
Proof.
  intros Hn Hs. unfold trunc_div.
  pose proof (Z.quot_rem' s n) as Hqr.
  assert (- n < Z.rem s n < n ∧ (0 ≤ s → 0 ≤ Z.rem s n)
          ∧ (s < 0 → Z.rem s n ≤ 0)) as (Hr & Hr1 & Hr2).
  { destruct (Z.le_gt_cases 0 s) as [H0|H0].
    - pose proof (Z.rem_bound_pos s n H0 Hn). lia.
    - pose proof (Z.rem_bound_pos (- s) n ltac:(lia) Hn) as H.
      rewrite Z.rem_opp_l in H by lia. lia. }
  split.
  - apply Z.lt_pred_le, (Z.mul_lt_mono_pos_l n); [done|].
    destruct (Z.le_gt_cases 0 s); lia.
  - apply Z.lt_succ_r, (Z.mul_lt_mono_pos_l n); [done|].
    destruct (Z.le_gt_cases 0 s); lia.
Qed.

Lemma sum_list_between (lo hi : Z) (l : list Z) :
  Forall (λ x, lo ≤ x ≤ hi) l →
  lo * Z.of_nat (length l) ≤ sum_list l ≤ hi * Z.of_nat (length l).
Proof. induction 1 as [|x l Hx _ IH]; cbn [sum_list foldr length]; [lia|]. fold (sum_list l). lia. Qed.

Lemma mean_value_between (lo hi : Z) (l : list Z) :
  l ≠ [] → Forall (λ x, lo ≤ x ≤ hi) l →
  lo ≤ trunc_div (sum_list l) (Z.of_nat (length l)) ≤ hi.
Proof.
  intros Hne Hl. apply trunc_div_between.
  - destruct l; [done|]. cbn [length]. lia.
  - by apply sum_list_between.
Qed.

Lemma median_value_between (lo hi : Z) (l : list Z) (n : nat) :
  l ≠ [] → Forall (λ x, lo ≤ x ≤ hi) l → n = length l →
  lo ≤ (let s := stable_sort Z.ltb l in
        if Nat.even n
        then trunc_div (s !!! (n / 2 - 1)%nat + s !!! (n / 2)%nat) 2
        else s !!! (n / 2)%nat) ≤ hi.
Proof.
  intros Hne Hl ->. cbn zeta.
  set (s := stable_sort Z.ltb l).
  assert (length s = length l) as Hlen by apply length_stable_sort.
  assert (Forall (λ x, lo ≤ x ≤ hi) s) as Hs.
  { unfold s. by rewrite stable_sort_Permutation. }
  assert (0 < length l)%nat as Hpos by (destruct l; [done|simpl; lia]).
  assert (length l / 2 < length l)%nat as Hmid
    by (apply Nat.div_lt; lia).
  destruct (Nat.even (length l)) eqn:Heven.
  - apply trunc_div_between; [lia|].
    pose proof (Forall_lookup_total_1 _ s (length l / 2 - 1) Hs ltac:(lia)).
    pose proof (Forall_lookup_total_1 _ s (length l / 2) Hs ltac:(lia)).
    simpl in *. lia.
  - by apply (Forall_lookup_total_1 _ s (length l / 2) Hs ltac:(lia)).
Qed.

Lemma row_mean_between (o : offer Z) :
  minSalary o ≤ maxSalary o → minSalary o ≤ row_mean o ≤ maxSalary o.
Proof. intros H. unfold row_mean. apply trunc_div_between; lia. Qed.

(** X4. When every row of the cleaned frame has [minSalary ≤ maxSalary], of
    whatever sign, and the salaries of the frame add up, in magnitude,
    to less than 2^53 (so that float64 takes the sums of lines 79-85
    exactly), each [salary_mean] lies in the range of its row, and the
    [mean] and the [median] that are returned lie between [min_] and
    [max_]: the bands that [plot_curves] fills between the four curves
    do not cross. *)
Theorem mean_and_median_between_min_and_max (offers df : list (offer Z)) :
  clean offers = Ok df →
  df ≠ [] →
  Forall (λ o, minSalary o ≤ maxSalary o) df →
  foldr Z.add 0 ((λ o, Z.abs (minSalary o) + Z.abs (maxSalary o)) <$> df)
    < 2 ^ 53 →
  ∃ fr mean median min_ max_,
    calculate_salary_stats offers = Ok (Some (fr, mean, median, min_, max_))
    ∧ Forall (λ r, minSalary r.1 ≤ r.2 ≤ maxSalary r.1) fr
    ∧ min_ ≤ mean ≤ max_
    ∧ min_ ≤ median ≤ max_.
Proof.
  intros Hclean Hne Hord _. destruct df as [|o df']; [done|].
  pose proof (calculate_salary_stats_returns _ _ _ Hclean) as Hret.
  set (df := o :: df') in *.
  set (lo := series_min (minSalary o) (minSalary <$> df')) in *.
  set (hi := series_max (maxSalary o) (maxSalary <$> df')) in *.
  assert (Forall (λ x, lo ≤ x ≤ hi) (row_mean <$> df)) as Hmeans.
  { destruct (series_min_spec (minSalary o) (minSalary <$> df')) as [_ Hlo].
    destruct (series_max_spec (maxSalary o) (maxSalary <$> df')) as [_ Hhi].
    rewrite <-fmap_cons, Forall_fmap in Hlo, Hhi. fold df lo in Hlo. fold df hi in Hhi.
    rewrite Forall_fmap. rewrite Forall_forall in Hord, Hlo, Hhi.
    apply Forall_forall. intros r Hr. simpl.
    pose proof (row_mean_between r (Hord r Hr)).
    specialize (Hlo r Hr). specialize (Hhi r Hr). simpl in *. lia. }
  assert (row_mean <$> df ≠ []) as Hne' by done.
  pose proof (mean_value_between lo hi _ Hne' Hmeans) as Hmb.
  pose proof (median_value_between lo hi _ (length df) Hne' Hmeans
                ltac:(by rewrite length_fmap)) as Hmdb.
  rewrite length_fmap in Hmb.
  do 5 eexists. split; [exact Hret|]. split; [|split; [exact Hmb|exact Hmdb]].
  unfold with_salary_mean. rewrite Forall_fmap.
  eapply Forall_impl; [exact Hord|]. intros r Hr. simpl.
  by apply row_mean_between.
Qed.

Lemma mean_and_median_between_min_and_max_witness :
  ∃ fr mean median min_ max_,
    calculate_salary_stats [Offer (-7) (-2); Offer 0 4; Offer (-3) 8; Offer 1 2]
      = Ok (Some (fr, mean, median, min_, max_))
    ∧ Forall (λ r, minSalary r.1 ≤ r.2 ≤ maxSalary r.1) fr
    ∧ min_ ≤ mean ≤ max_
    ∧ min_ ≤ median ≤ max_.
Proof.
  apply (mean_and_median_between_min_and_max
           [Offer (-7) (-2); Offer 0 4; Offer (-3) 8; Offer 1 2]
           [Offer (-7) (-2); Offer (-3) 8; Offer 1 2]);
    [reflexivity | discriminate | | vm_compute; reflexivity].
  repeat (apply Forall_cons_2 || apply Forall_nil_2); simpl; lia.
Defined.

(** ** The statistics and the order of the offers *)

Lemma sum_list_Permutation (l1 l2 : list Z) :
  l1 ≡ₚ l2 → sum_list l1 = sum_list l2.
Proof.
  unfold sum_list.
  induction 1 as [|x l1 l2 _ IH|x y l|l1 l2 l3 _ IH1 _ IH2]; simpl; lia.
Qed.

Lemma sort_Z_Permutation (l1 l2 : list Z) :
  l1 ≡ₚ l2 → stable_sort Z.ltb l1 = stable_sort Z.ltb l2.
Proof.
  intros Hp. apply (StronglySorted_unique Z.le); [apply sort_Z_sorted..|].
  by rewrite !stable_sort_Permutation.
Qed.

Lemma series_min_Permutation (x y : Z) (l k : list Z) :
  x :: l ≡ₚ y :: k → series_min x l = series_min y k.
Proof.
  intros Hp.
  destruct (series_min_spec x l) as [Hin1 Hle1].
  destruct (series_min_spec y k) as [Hin2 Hle2].
  rewrite Forall_forall in Hle1, Hle2.
  rewrite Hp in Hin1. rewrite <-Hp in Hin2.
  specialize (Hle1 _ Hin2). specialize (Hle2 _ Hin1). lia.
Qed.

Lemma series_max_Permutation (x y : Z) (l k : list Z) :
  x :: l ≡ₚ y :: k → series_max x l = series_max y k.
Proof.
  intros Hp.
  destruct (series_max_spec x l) as [Hin1 Hle1].
  destruct (series_max_spec y k) as [Hin2 Hle2].
  rewrite Forall_forall in Hle1, Hle2.
  rewrite Hp in Hin1. rewrite <-Hp in Hin2.
  specialize (Hle1 _ Hin2). specialize (Hle2 _ Hin1). lia.
Qed.

(** X5. Where no usable offer has [maxSalary = 0] and the salaries of
    the usable offers add up, in magnitude, to less than 2^53 (so that
    float64 takes the sums of lines 79-85 exactly, in whatever order),
    the four statistics do not depend on the order in which the
    database returns the offers; the frames hold the same rows. *)
Theorem statistics_do_not_depend_on_order (offers offers' : list (offer Z)) :
  offers ≡ₚ offers' →
  Forall (λ o, maxSalary o ≠ 0) (drop_unadvertised offers) →
  drop_unadvertised offers ≠ [] →
  foldr Z.add 0 ((λ o, Z.abs (minSalary o) + Z.abs (maxSalary o))
                   <$> drop_unadvertised offers) < 2 ^ 53 →
  ∃ fr fr' mean median min_ max_,
    calculate_salary_stats offers = Ok (Some (fr, mean, median, min_, max_))
    ∧ calculate_salary_stats offers'
      = Ok (Some (fr', mean, median, min_, max_))
    ∧ fr ≡ₚ fr'.
Proof.
  intros Hp Hnz Hne _.
  assert (drop_unadvertised offers ≡ₚ drop_unadvertised offers') as Hdp
    by (unfold drop_unadvertised; by rewrite Hp).
  assert (clean offers = Ok (drop_unadvertised offers)) as Hc1
    by by apply clean_nonzero.
  assert (clean offers' = Ok (drop_unadvertised offers')) as Hc2.
  { apply clean_nonzero. by rewrite <-Hdp. }
  destruct (drop_unadvertised offers) as [|o1 df1] eqn:Hd1; [done|].
  destruct (drop_unadvertised offers') as [|o2 df2] eqn:Hd2.
  { by apply Permutation_nil_r in Hdp. }
  pose proof (calculate_salary_stats_returns _ _ _ Hc1) as Hr1.
  pose proof (calculate_salary_stats_returns _ _ _ Hc2) as Hr2.
  assert (row_mean <$> o1 :: df1 ≡ₚ row_mean <$> o2 :: df2) as Hmeans
    by by apply fmap_Permutation.
  rewrite <-(sum_list_Permutation _ _ Hmeans) in Hr2.
  rewrite <-(sort_Z_Permutation _ _ Hmeans) in Hr2.
  rewrite <-(Permutation_length Hdp) in Hr2.
  rewrite <-(series_min_Permutation (minSalary o1) _ (minSalary <$> df1)) in Hr2
    by (rewrite <-!fmap_cons; by apply fmap_Permutation).
  rewrite <-(series_max_Permutation (maxSalary o1) _ (maxSalary <$> df1)) in Hr2
    by (rewrite <-!fmap_cons; by apply fmap_Permutation).
  do 6 eexists. split; [exact Hr1|]. split; [exact Hr2|].
  unfold with_salary_mean. by apply fmap_Permutation.
Qed.

Lemma statistics_do_not_depend_on_order_witness :
  ∃ fr fr' mean median min_ max_,
    calculate_salary_stats [Offer 10000 20000; Offer 0 5; Offer 30000 50000]
      = Ok (Some (fr, mean, median, min_, max_))
    ∧ calculate_salary_stats [Offer 30000 50000; Offer 10000 20000; Offer 0 5]
      = Ok (Some (fr', mean, median, min_, max_))
    ∧ fr ≡ₚ fr'.
Proof.
  apply (statistics_do_not_depend_on_order
           [Offer 10000 20000; Offer 0 5; Offer 30000 50000]
           [Offer 30000 50000; Offer 10000 20000; Offer 0 5]).
  - symmetry.
    apply (Permutation_cons_append [Offer 10000 20000; Offer 0 5]
             (Offer 30000 50000)).
  - repeat (apply Forall_cons_2 || apply Forall_nil_2); discriminate.
  - discriminate.
  - vm_compute. reflexivity.
Defined.

(** ** What the distribution stores *)

Lemma lookup_foldl_add_weight_in weigth (boxes : list Z) (res : gmap Z Qc) b :
  NoDup boxes → b ∈ boxes →
  foldl (add_weight weigth) res boxes !! b = Some (res_get res b + weigth)%Qc.
Proof.
  revert res. induction boxes as [|box boxes IH]; intros res Hnd Hb.
  { by apply elem_of_nil in Hb. }
  apply NoDup_cons in Hnd as [Hbox Hnd]. cbn [foldl].
  destruct (decide (box = b)) as [->|Hne].
  - rewrite lookup_foldl_add_weight_notin by done.
    unfold add_weight. by rewrite lookup_insert_eq.
  - apply elem_of_cons in Hb as [->|Hb]; [done|].
    rewrite IH by done. rewrite res_get_add_weight. by rewrite decide_False.
Qed.

Lemma lookup_spread (res : gmap Z Qc) (boxes : list Z) (b : Z) :
  NoDup boxes →
  spread res boxes !! b
  = if decide (b ∈ boxes)
    then Some (res_get res b + 1 / Qc_of_nat (length boxes))%Qc
    else res !! b.
Proof.
  intros Hnd. unfold spread. destruct boxes as [|box boxes].
  { rewrite decide_False; [done|]. apply not_elem_of_nil. }
  destruct (decide (b ∈ box :: boxes)) as [Hb|Hb].
  - by apply lookup_foldl_add_weight_in.
  - by apply lookup_foldl_add_weight_notin.
Qed.

Lemma fill_rows_int (idx : list Z) (o : offer Z) (df : list (offer Z))
    (res : gmap Z Qc) :
  fill_rows idx res (int_row <$> o :: df)
  = fill_rows idx
      (spread res (filter (λ b, minSalary o ≤ b < maxSalary o) idx))
      (int_row <$> df).
Proof. rewrite fmap_cons. cbn [fill_rows]. by rewrite boxes_filled_int. Qed.

Lemma weight_bounds (n : nat) :
  (0 < 1 / Qc_of_nat (S n))%Qc ∧ (1 / Qc_of_nat (S n) ≤ 1)%Qc.
Proof.
  assert (0 < Qc_of_nat (S n))%Qc as Hpos.
  { rewrite <-Qc_of_nat_0. unfold Qc_of_nat.
    apply (proj1 (Z2Qc_inj_lt _ _)). lia. }
  assert (1 ≤ Qc_of_nat (S n))%Qc as Hone.
  { rewrite <-Z2Qc_inj_1. unfold Qc_of_nat.
    apply (proj1 (Z2Qc_inj_le _ _)). lia. }
  unfold Qcdiv. rewrite Qcmult_1_l. split; [by apply Qcinv_pos|].
  apply (Qcmult_le_mono_pos_r _ _ (Qc_of_nat (S n))); [done|].
  rewrite Qcmult_inv_l, Qcmult_1_l; [done|].
  intros H0. rewrite H0 in Hpos. by apply Qclt_not_eq in Hpos.
Qed.

Lemma is_Some_lookup_spread (res : gmap Z Qc) (boxes : list Z) (b : Z) :
  NoDup boxes →
  is_Some (spread res boxes !! b) ↔ is_Some (res !! b) ∨ b ∈ boxes.
Proof.
  intros Hnd. rewrite lookup_spread by done. case_decide.
  - split; [by right | by eexists].
  - tauto.
Qed.

Lemma fill_rows_keys (idx : list Z) (df : list (offer Z)) (res res' : gmap Z Qc) :
  NoDup idx →
  fill_rows idx res (int_row <$> df) = Ok res' →
  ∀ b, is_Some (res' !! b)
       ↔ is_Some (res !! b)
         ∨ (b ∈ idx ∧ Exists (λ o, minSalary o ≤ b < maxSalary o) df).
Proof.
  intros Hnd. revert res. induction df as [|o df IH]; intros res Hres b.
  - injection Hres as <-. rewrite Exists_nil. tauto.
  - rewrite fill_rows_int in Hres. rewrite (IH _ Hres b).
    rewrite is_Some_lookup_spread by by apply NoDup_filter.
    rewrite list_elem_of_filter, Exists_cons. tauto.
Qed.

Lemma res_get_bounds (res : gmap Z Qc) (c : Qc) (b : Z) :
  (0 ≤ c)%Qc →
  (∀ b v, res !! b = Some v → (0 < v)%Qc ∧ (v ≤ c)%Qc) →
  (0 ≤ res_get res b)%Qc ∧ (res_get res b ≤ c)%Qc.
Proof.
  intros Hc Hres. unfold res_get. destruct (res !! b) as [v|] eqn:Hb; simpl.
  - destruct (Hres b v Hb). split; [by apply Qclt_le_weak|done].
  - by split.
Qed.

Lemma spread_bounds (res : gmap Z Qc) (boxes : list Z) (c : Qc) :
  NoDup boxes → (0 ≤ c)%Qc →
  (∀ b v, res !! b = Some v → (0 < v)%Qc ∧ (v ≤ c)%Qc) →
  ∀ b v, spread res boxes !! b = Some v → (0 < v)%Qc ∧ (v ≤ c + 1)%Qc.
Proof.
  intros Hnd Hc Hres b v. rewrite lookup_spread by done.
  assert (c ≤ c + 1)%Qc as Hc1.
  { rewrite <-(Qcplus_0_r c) at 1. by apply Qcplus_le_mono_l. }
  case_decide as Hb.
  - intros [= <-]. destruct boxes as [|box boxes].
    { by apply elem_of_nil in Hb. }
    destruct (weight_bounds (length boxes)) as [Hw0 Hw1].
    destruct (res_get_bounds res c b Hc Hres) as [Hg0 Hg1].
    cbn [length]. split.
    + by apply Qcplus_nonneg_pos.
    + by apply Qcplus_le_compat.
  - intros Hv. destruct (Hres b v Hv). split; [done|]. by trans c.
Qed.

Lemma fill_rows_bounds (idx : list Z) (df : list (offer Z))
    (res res' : gmap Z Qc) (c : Qc) :
  NoDup idx → (0 ≤ c)%Qc →
  (∀ b v, res !! b = Some v → (0 < v)%Qc ∧ (v ≤ c)%Qc) →
  fill_rows idx res (int_row <$> df) = Ok res' →
  ∀ b v, res' !! b = Some v
         → (0 < v)%Qc ∧ (v ≤ c + Qc_of_nat (length df))%Qc.
Proof.
  intros Hnd. revert res c.
  induction df as [|o df IH]; intros res c Hc Hres Hfill b v Hv.
  - injection Hfill as <-. cbn [length]. rewrite Qc_of_nat_0, Qcplus_0_r.
    by apply (Hres b).
  - rewrite fill_rows_int in Hfill. cbn [length].
    rewrite Qc_of_nat_S, (Qcplus_comm _ 1), Qcplus_assoc.
    apply (IH (spread res (filter (λ b, minSalary o ≤ b < maxSalary o) idx))
              (c + 1)%Qc) with b; [| |done..].
    + by apply Qcplus_nonneg_nonneg.
    + apply spread_bounds; [by apply NoDup_filter|done..].
Qed.

(** X7. For a positive width, a box is stored in [res] exactly when it is a
    point of the grid that some row covers ([minSalary ≤ b < maxSalary]);
    the weight stored with it is positive and at most the number of rows:
    no box is stored with weight 0, nor outside the grid. *)
Theorem stored_boxes_are_covered_grid_points
    (df : list (offer Z)) (max_ : num) (box_width : Z) :
  0 < box_width →
  ∃ idx res,
    indexes max_ box_width = Ok idx
    ∧ plot_distrib (int_row <$> df) max_ box_width = Ok res
    ∧ (∀ b, is_Some (res !! b)
            ↔ b ∈ idx ∧ Exists (λ o, minSalary o ≤ b < maxSalary o) df)
    ∧ ∀ b v, res !! b = Some v
             → (0 < v)%Qc ∧ (v ≤ Qc_of_nat (length df))%Qc.
Proof.
  intros Hw. destruct (indexes_positive max_ _ Hw) as (top & _ & _ & Hidx).
  set (idx := (λ box, box * box_width) <$> py_range (top + 1)) in *.
  pose proof (NoDup_indexes _ _ _ Hw Hidx) as Hnd.
  destruct (fill_rows_int_mass idx df ∅) as (res & Hres & _).
  exists idx, res. split; [done|].
  split; [unfold plot_distrib; by rewrite Hidx|]. split.
  - intros b. rewrite (fill_rows_keys _ _ _ _ Hnd Hres b), lookup_empty.
    split; [intros [[? [=]]|?]; done | by right].
  - intros b v Hv.
    destruct (fill_rows_bounds idx df ∅ res 0%Qc Hnd) with b v as [H0 H1];
      try done.
    rewrite Qcplus_0_l in H1. by split.
Qed.

Lemma stored_boxes_are_covered_grid_points_witness :
  ∃ idx res,
    indexes (PyInt 9000) 1000 = Ok idx
    ∧ plot_distrib (int_row <$> [Offer 1000 6000; Offer 4000 9000])
        (PyInt 9000) 1000 = Ok res
    ∧ (∀ b, is_Some (res !! b)
            ↔ b ∈ idx
              ∧ Exists (λ o, minSalary o ≤ b < maxSalary o)
                  [Offer 1000 6000; Offer 4000 9000])
    ∧ ∀ b v, res !! b = Some v
             → (0 < v)%Qc
               ∧ Qcle v (Qc_of_nat (length [Offer 1000 6000; Offer 4000 9000])).
Proof.
  apply (stored_boxes_are_covered_grid_points
           [Offer 1000 6000; Offer 4000 9000] (PyInt 9000) 1000).
  lia.
Defined.

(** ** How many boxes a row fills *)

Lemma ceil_div_spec (a w : Z) :
  0 < w → (ceil_div a w - 1) * w < a ≤ ceil_div a w * w.
Proof.
  intros Hw. unfold ceil_div.
  pose proof (Z.mul_div_le (- a) w Hw).
  pose proof (Z.mul_succ_div_gt (- a) w Hw). lia.
Qed.

Lemma le_ceil_div (k a w : Z) : 0 < w → a ≤ k * w ↔ ceil_div a w ≤ k.
Proof.
  intros Hw. pose proof (ceil_div_spec a w Hw). split; intros; nia.
Qed.

Lemma elem_of_grid (z w b : Z) :
  0 < w →
  b ∈ (λ box, box * w) <$> py_range (z / w + 1)
  ↔ ∃ k, 0 ≤ k ∧ k * w ≤ z ∧ b = k * w.
Proof.
  intros Hw. rewrite list_elem_of_fmap. split.
  - intros (k & -> & Hk%elem_of_py_range). exists k.
    pose proof (Z.mul_div_le z w Hw). repeat split; [lia|nia].
  - intros (k & Hk0 & Hkz & ->). exists k. split; [done|].
    apply elem_of_py_range.
    assert (k ≤ z / w) by (apply Z.div_le_lower_bound; lia). lia.
Qed.

Lemma boxes_of_row (z w : Z) (o : offer Z) (b : Z) :
  0 < w → 0 ≤ minSalary o → maxSalary o ≤ z →
  b ∈ filter (λ b, minSalary o ≤ b < maxSalary o)
        ((λ box, box * w) <$> py_range (z / w + 1))
  ↔ ∃ k, ceil_div (minSalary o) w ≤ k < ceil_div (maxSalary o) w ∧ b = k * w.
Proof.
  intros Hw Hmin Hmax. rewrite list_elem_of_filter, elem_of_grid by done.
  split.
  - intros [[Hlo Hhi] (k & Hk0 & Hkz & ->)]. exists k. split; [|done].
    rewrite <-le_ceil_div by done. split; [done|].
    apply Z.lt_nge. rewrite <-le_ceil_div by done. lia.
  - intros (k & [Hlo Hhi] & ->).
    apply le_ceil_div in Hlo; [|done].
    apply Z.lt_nge in Hhi. rewrite <-le_ceil_div in Hhi by done.
    split; [lia|]. exists k. repeat split; [nia|lia].
Qed.

Lemma count_boxes_of_row (z w : Z) (o : offer Z) :
  0 < w → 0 ≤ minSalary o ≤ maxSalary o → maxSalary o ≤ z →
  Z.of_nat (length (filter (λ b, minSalary o ≤ b < maxSalary o)
                      ((λ box, box * w) <$> py_range (z / w + 1))))
  = ceil_div (maxSalary o) w - ceil_div (minSalary o) w.
Proof.
  intros Hw [Hmin Hord] Hmax.
  set (a := ceil_div (minSalary o) w). set (c := ceil_div (maxSalary o) w).
  assert (a ≤ c) as Hac.
  { apply le_ceil_div; [done|]. pose proof (ceil_div_spec (maxSalary o) w Hw).
    fold c in H. lia. }
  rewrite (Permutation_length (l' := (λ k, k * w) <$> ((λ i, a + i) <$> py_range (c - a)))).
  { unfold py_range. rewrite !length_fmap, length_seq. lia. }
  apply NoDup_Permutation.
  - apply NoDup_filter, NoDup_fmap; [|apply NoDup_py_range]. intros i j. nia.
  - apply NoDup_fmap; [intros i j; nia|].
    apply NoDup_fmap; [intros i j; lia|]. apply NoDup_py_range.
  - intros b. rewrite boxes_of_row by lia. fold a c.
    rewrite list_elem_of_fmap. split.
    + intros (k & Hk & ->). exists k. split; [done|].
      apply list_elem_of_fmap. exists (k - a). split; [lia|].
      apply elem_of_py_range. lia.
    + intros (k & -> & (i & -> & Hi%elem_of_py_range)%list_elem_of_fmap).
      exists (a + i). split; [lia|done].
Qed.

(** X8. For a grid of positive width drawn up to [max_], a row with
    [0 ≤ minSalary ≤ maxSalary ≤ max_] fills the boxes [k * box_width]
    with [ceil(minSalary / w) ≤ k < ceil(maxSalary / w)], and so as many
    boxes as the difference of the two ceilings: the grid never cuts
    the row short. A data point between 10k and 15k, at a resolution of
    1000, is replaced by the 5 boxes 10000 .. 14000, as the docstring
    has it, each with the float64 nearest to 1/5. *)
Theorem number_of_boxes_filled (z box_width : Z) (idx : list Z) (o : offer Z) :
  0 < box_width →
  indexes (PyInt z) box_width = Ok idx →
  0 ≤ minSalary o ≤ maxSalary o →
  maxSalary o ≤ z →
  ∃ boxes,
    boxes_filled idx (int_row o) = Ok boxes
    ∧ (∀ b, b ∈ boxes
            ↔ ∃ k, ceil_div (minSalary o) box_width ≤ k
                     < ceil_div (maxSalary o) box_width
                   ∧ b = k * box_width)
    ∧ Z.of_nat (length boxes)
      = ceil_div (maxSalary o) box_width - ceil_div (minSalary o) box_width
    ∧ (res ← plot_distrib64 [int_row (Offer 10000 15000)] (PyInt 15000) 1000;
       Ok ((λ bar, (bar.1, Qred (float_to_Q bar.2))) <$> bars64 res))
      = Ok [(10000, 3602879701896397 # 18014398509481984);
            (11000, 3602879701896397 # 18014398509481984);
            (12000, 3602879701896397 # 18014398509481984);
            (13000, 3602879701896397 # 18014398509481984);
            (14000, 3602879701896397 # 18014398509481984)].
Proof.
  intros Hw Hidx Hord Hmax. injection Hidx as <-.
  eexists. split; [apply boxes_filled_int|]. split; [|split].
  - intros b. apply boxes_of_row; lia.
  - by apply count_boxes_of_row.
  - vm_compute. reflexivity.
Qed.

Lemma number_of_boxes_filled_witness :
  ∃ boxes,
    boxes_filled [0; 500; 1000; 1500; 2000] (int_row (Offer 400 1700)) = Ok boxes
    ∧ (∀ b, b ∈ boxes
            ↔ ∃ k, ceil_div 400 500 ≤ k < ceil_div 1700 500 ∧ b = k * 500)
    ∧ Z.of_nat (length boxes) = ceil_div 1700 500 - ceil_div 400 500
    ∧ (res ← plot_distrib64 [int_row (Offer 10000 15000)] (PyInt 15000) 1000;
       Ok ((λ bar, (bar.1, Qred (float_to_Q bar.2))) <$> bars64 res))
      = Ok [(10000, 3602879701896397 # 18014398509481984);
            (11000, 3602879701896397 # 18014398509481984);
            (12000, 3602879701896397 # 18014398509481984);
            (13000, 3602879701896397 # 18014398509481984);
            (14000, 3602879701896397 # 18014398509481984)].
Proof.
  apply (number_of_boxes_filled 2100 500 [0; 500; 1000; 1500; 2000]
           (Offer 400 1700)); [lia | reflexivity | simpl; lia | simpl; lia].
Defined.

Lemma first_box_of_wide_row (z w : Z) (o : offer Z) :
  0 < w → 0 ≤ minSalary o → minSalary o + w ≤ maxSalary o → maxSalary o ≤ z →
  ∃ b, b ∈ (λ box, box * w) <$> py_range (z / w + 1)
    ∧ minSalary o ≤ b < minSalary o + w.
Proof.
  intros Hw Hmin Hwide Hmax.
  pose proof (ceil_div_spec (minSalary o) w Hw) as Hceil.
  exists (ceil_div (minSalary o) w * w). split; [|lia].
  apply elem_of_grid; [done|]. exists (ceil_div (minSalary o) w).
  split; [nia|]. split; [lia|done].
Qed.

(** X9. When every row spans at least one width
    ([minSalary + box_width ≤ maxSalary], with [0 ≤ minSalary] and
    [maxSalary ≤ max_]), no row is lost: each of them overlaps the grid,
    and the distribution that the program computes stores, for each of
    them, a box within one width of its [minSalary]. *)
Theorem wide_rows_all_fill_a_box (df : list (offer Z)) (z box_width : Z) :
  0 < box_width →
  Forall (λ o, 0 ≤ minSalary o ∧ minSalary o + box_width ≤ maxSalary o
               ∧ maxSalary o ≤ z) df →
  ∃ idx res64,
    indexes (PyInt z) box_width = Ok idx
    ∧ plot_distrib64 (int_row <$> df) (PyInt z) box_width = Ok res64
    ∧ Forall (overlaps_grid idx) df
    ∧ Forall (λ o, ∃ b, is_Some (res64 !! b)
                        ∧ minSalary o ≤ b < minSalary o + box_width) df.
Proof.
  intros Hw Hdf.
  set (idx := (λ box, box * box_width) <$> py_range (z / box_width + 1)).
  destruct (fill_rows_in_returns (float_of_int 0) PrimFloat.add share64
              idx df ∅) as (res64 & Hres64).
  exists idx, res64. split; [done|]. split; [done|].
  rewrite Forall_forall in Hdf. split; apply Forall_forall; intros o Ho.
  - destruct (Hdf o Ho) as (Hmin & Hwide & Hmax).
    destruct (first_box_of_wide_row z box_width o) as (b & Hb & Hin);
      [done..|].
    unfold overlaps_grid. apply Exists_exists. exists b. split; [done|lia].
  - destruct (Hdf o Ho) as (Hmin & Hwide & Hmax).
    destruct (first_box_of_wide_row z box_width o) as (b & Hb & Hin);
      [done..|].
    exists b. split; [|done].
    apply (fill_rows_in_keys _ _ _ _ _ _ _ Hres64 b). right.
    split; [done|]. apply Exists_exists. exists o. split; [done|lia].
Qed.

Lemma wide_rows_all_fill_a_box_witness :
  ∃ idx res64,
    indexes (PyInt 45000) 1000 = Ok idx
    ∧ plot_distrib64 (int_row <$> [Offer 18500 19500; Offer 20000 45000])
        (PyInt 45000) 1000 = Ok res64
    ∧ Forall (overlaps_grid idx) [Offer 18500 19500; Offer 20000 45000]
    ∧ Forall (λ o, ∃ b, is_Some (res64 !! b)
                        ∧ minSalary o ≤ b < minSalary o + 1000)
        [Offer 18500 19500; Offer 20000 45000].
Proof.
  apply (wide_rows_all_fill_a_box
           [Offer 18500 19500; Offer 20000 45000] 45000 1000); [lia|].
  repeat (apply Forall_cons_2 || apply Forall_nil_2); simpl; lia.
Defined.

(** ** A grid without boxes *)

Lemma fill_rows_no_index (rows : list (offer num)) (res : gmap Z Qc) :
  fill_rows [] res rows = Ok res.
Proof. induction rows as [|row rows IH]; [done|]. cbn. exact IH. Qed.

Lemma py_range_nonpos (n : Z) : n ≤ 0 → py_range n = [].
Proof. intros Hn. unfold py_range. by replace (Z.to_nat n) with 0%nat by lia. Qed.

(** X10. With a negative [max_] (and a positive width) [range(query_width)] is
    empty: no box exists, the rows are not examined and the result is
    the empty distribution, even for rows that hold floats. *)
Theorem negative_max_gives_empty_distribution
    (rows : list (offer num)) (max_ : num) (box_width : Z) :
  0 < box_width →
  ¬ num_nonneg max_ →
  indexes max_ box_width = Ok []
  ∧ plot_distrib rows max_ box_width = Ok ∅.
Proof.
  intros Hw Hneg.
  destruct (indexes_positive max_ _ Hw) as (top & _ & Hfl & Hidx).
  assert (top + 1 ≤ 0) as Htop.
  { destruct max_ as [z|q]; simpl in Hfl, Hneg.
    - nia.
    - destruct Hfl as [Hle _]. apply Qnot_le_lt in Hneg.
      assert (inject_Z (top * box_width) < inject_Z 0)%Q as H0
        by (eapply Qle_lt_trans; [exact Hle|exact Hneg]).
      rewrite <-Zlt_Qlt in H0. nia. }
  rewrite py_range_nonpos in Hidx by done.
  split; [done|]. unfold plot_distrib. rewrite Hidx.
  apply fill_rows_no_index.
Qed.

Lemma negative_max_gives_empty_distribution_witness :
  indexes (PyInt (-1)) 1000 = Ok []
  ∧ plot_distrib [Offer (PyFloat (-5 # 2)) (PyInt (-1))] (PyInt (-1)) 1000 = Ok ∅.
Proof.
  apply (negative_max_gives_empty_distribution
           [Offer (PyFloat (-5 # 2)) (PyInt (-1))] (PyInt (-1)) 1000).
  - lia.
  - simpl. lia.
Defined.

(** ** The bars *)

Lemma StronglySorted_strict {A} (l : list (Z * A)) :
  StronglySorted (λ a b, a.1 ≤ b.1) l →
  NoDup l.*1 →
  StronglySorted (λ a b, a.1 < b.1) l.
Proof.
  induction 1 as [|x l Hl IH Hx]; intros Hnd; [constructor|].
  rewrite fmap_cons in Hnd. apply NoDup_cons in Hnd as [Hnotin Hnd].
  constructor; [by apply IH|].
  rewrite Forall_forall in Hx. apply Forall_forall. intros y Hy.
  specialize (Hx y Hy). simpl in Hx.
  assert (x.1 ≠ y.1).
  { intros Heq. apply Hnotin. rewrite Heq. by apply list_elem_of_fmap_2. }
  lia.
Qed.

(** X11. The bars that are drawn are the entries of [res], each once, by
    strictly increasing box; their heights add up to the mass of
    [res]; there are as many as [print(len(barplot))] reports. *)
Theorem bars_are_the_entries_in_increasing_order (res : gmap Z Qc) :
  bars res ≡ₚ map_to_list res
  ∧ StronglySorted (λ a b, a.1 < b.1) (bars res)
  ∧ foldr Qcplus 0%Qc (bars res).*2 = total_mass res
  ∧ length (bars res) = size res.
Proof.
  assert (bars res ≡ₚ map_to_list res) as Hp
    by apply stable_sort_Permutation.
  split; [done|]. split; [|split].
  - apply StronglySorted_strict.
    + eapply StronglySorted_ind
        with (R := not_after (λ a b : Z * Qc, a.1 <? b.1)).
      * constructor.
      * intros x s _ IH Hx. constructor; [done|].
        eapply Forall_impl; [exact Hx|]. unfold not_after. intros y Hy.
        simpl in Hy. lia.
      * apply stable_sort_StronglySorted; unfold not_after; intros; lia.
    + rewrite Hp. apply NoDup_fst_map_to_list.
  - unfold total_mass. apply Qc_sum_Permutation. by apply fmap_Permutation.
  - by rewrite Hp, length_map_to_list.
Qed.

(** ** [report_all] as a whole *)

Lemma for_each_Forall2 {A B} (f : A → result B) (R : A → B → Prop) (l : list A) :
  (∀ x, x ∈ l → ∃ y, f x = Ok y ∧ R x y) →
  ∃ ys, for_each f l = Ok ys ∧ Forall2 R l ys.
Proof.
  induction l as [|x l IH]; intros Hf.
  - exists []. by split.
  - destruct (Hf x ltac:(left)) as (y & Hy & HR).
    destruct IH as (ys & Hys & HRs).
    { intros x' Hx'. apply Hf. by right. }
    exists (y :: ys). cbn [for_each]. rewrite Hy, Hys. split; [done|].
    by constructor.
Qed.

Lemma plot_stat_returns (item : stat) : ∃ res, plot_stat item = Ok res.
Proof.
  unfold plot_stat.
  destruct (indexes_positive (PyInt (max_ item)) 1000 ltac:(lia))
    as (top & _ & _ & Hidx).
  set (idx := (λ box, box * 1000) <$> py_range (top + 1)) in *.
  destruct (fill_rows_int_mass idx (df item).*1 ∅) as (res & Hres & _).
  exists res. unfold plot_distrib. by rewrite Hidx.
Qed.

Lemma length_collect_stats (retrieve_offers_from : Z → list (offer Z))
    (queries : list query) :
  (length (collect_stats retrieve_offers_from queries) ≤ length queries)%nat.
Proof.
  induction queries as [|q qs IH]; [done|].
  rewrite collect_stats_cons, length_app. cbn [length].
  unfold try_query.
  destruct (calculate_salary_stats _) as [[[[[[??]?]?]?]|]|]; simpl; lia.
Qed.

(** X12. Whatever the database returns, [report_all] fails in one case
    only: when no query is retained, the grid of line 38 has no row and
    ValueError is raised. Otherwise every distribution is computed
    without an exception, one per entry of [stats], in ascending order;
    and there are at most as many entries as queries. *)
Theorem report_all_draws_every_distribution
    (retrieve_offers_from : Z → list (offer Z)) (queries : list query) :
  let stats := collect_stats retrieve_offers_from queries in
  ∃ distribs,
    Forall2 (λ item res, plot_stat item = Ok res)
      (sort_forward (sort_reverse stats)) distribs
    ∧ report_all retrieve_offers_from queries
      = (if decide (stats = [])
         then Raise ValueError
         else Ok (sort_reverse stats, distribs))
    ∧ (length distribs ≤ length queries)%nat.
Proof.
  intros stats. subst stats.
  set (stats := collect_stats retrieve_offers_from queries).
  destruct (for_each_Forall2 plot_stat
              (λ item res, plot_stat item = Ok res)
              (sort_forward (sort_reverse stats))) as (ds & Hds & HR).
  { intros item _. destruct (plot_stat_returns item) as (res & Hres).
    by exists res. }
  exists ds. split; [done|]. split.
  - unfold report_all. fold stats. rewrite Hds.
    assert (length (sort_reverse stats) = length stats) as Hlen
      by apply length_stable_sort.
    case_decide as Hstats.
    + by rewrite Hstats.
    + destruct (sort_reverse stats) as [|item items] eqn:Hsorted; [|done].
      destruct stats; [done|discriminate Hlen].
  - rewrite <-(Forall2_length _ _ _ HR).
    unfold sort_forward, sort_reverse. rewrite !length_stable_sort.
    apply length_collect_stats.
Qed.

Lemma calculate_salary_stats_inv (offers : list (offer Z))
    (fr : frame) (mean median min_ max_ : Z) :
  calculate_salary_stats offers = Ok (Some (fr, mean, median, min_, max_)) →
  ∃ o df',
    clean offers = Ok (o :: df')
    ∧ fr = with_salary_mean (o :: df')
    ∧ min_ = series_min (minSalary o) (minSalary <$> df')
    ∧ max_ = series_max (maxSalary o) (maxSalary <$> df').
Proof.
  intros Hcalc.
  destruct (clean offers) as [[|o df']|e] eqn:Hclean.
  - unfold calculate_salary_stats in Hcalc. rewrite Hclean in Hcalc.
    by destruct offers.
  - rewrite (calculate_salary_stats_returns _ _ _ Hclean) in Hcalc.
    injection Hcalc as <- _ _ <- <-. by exists o, df'.
  - unfold calculate_salary_stats in Hcalc. rewrite Hclean in Hcalc.
    by destruct offers.
Qed.

Lemma try_query_cases (retrieve_offers_from : Z → list (offer Z)) (q : query) :
  try_query retrieve_offers_from [] q = []
  ∨ ∃ fr mean median min_ max_,
      calculate_salary_stats (retrieve_offers_from (qid q))
      = Ok (Some (fr, mean, median, min_, max_))
      ∧ try_query retrieve_offers_from [] q
        = [Stat (query_name q) fr max_ min_ mean median].
Proof.
  unfold try_query.
  destruct (calculate_salary_stats _) as [[[[[[fr m] md] mn] mx]|]|];
    [right|by left..].
  by exists fr, m, md, mn, mx.
Qed.

(** X13. The entries of [stats] are those of the queries that were not
    passed over, in the order of the queries. *)
Theorem retained_queries_keep_their_order
    (retrieve_offers_from : Z → list (offer Z)) (queries : list query) :
  qname <$> collect_stats retrieve_offers_from queries
  `sublist_of` query_name <$> queries.
Proof.
  induction queries as [|q qs IH]; [done|].
  rewrite collect_stats_cons, fmap_app, fmap_cons.
  destruct (try_query_cases retrieve_offers_from q)
    as [->|(fr & m & md & mn & mx & _ & ->)].
  - by apply sublist_cons.
  - by apply sublist_skip.
Qed.

(** X14. Every entry of [stats] comes from a query: its frame is the one the
    cleaning step returned for the offers of that query, it is not
    empty, it holds no zero salary, and every row has
    [min_ ≤ minSalary] and [maxSalary ≤ max_]: the grid of
    [plot_distrib], drawn up to [max_], reaches the end of every row. *)
Theorem collected_stats_come_from_cleaned_frames
    (retrieve_offers_from : Z → list (offer Z)) (queries : list query)
    (item : stat) :
  item ∈ collect_stats retrieve_offers_from queries →
  ∃ q, q ∈ queries
    ∧ qname item = query_name q
    ∧ clean (retrieve_offers_from (qid q)) = Ok (df item).*1
    ∧ df item ≠ []
    ∧ Forall (λ o, minSalary o ≠ 0 ∧ maxSalary o ≠ 0
                   ∧ min_ item ≤ minSalary o ∧ maxSalary o ≤ max_ item)
        (df item).*1.
Proof.
  induction queries as [|q qs IH]; intros Hin.
  { by apply elem_of_nil in Hin. }
  rewrite collect_stats_cons in Hin. apply elem_of_app in Hin as [Hin|Hin].
  - destruct (try_query_cases retrieve_offers_from q)
      as [Hq|(fr & m & md & mn & mx & Hcalc & Hq)]; rewrite Hq in Hin.
    { by apply elem_of_nil in Hin. }
    apply list_elem_of_singleton in Hin as ->.
    apply calculate_salary_stats_inv in Hcalc
      as (o & df' & Hclean & -> & -> & ->).
    exists q. split; [left|]. split; [done|]. cbn [df min_ max_].
    assert ((with_salary_mean (o :: df')).*1 = o :: df') as ->.
    { unfold with_salary_mean. rewrite <-list_fmap_compose.
      apply list_fmap_id. }
    split; [done|]. split; [done|].
    assert (Forall (λ r, minSalary r ≠ 0 ∧ maxSalary r ≠ 0) (o :: df')) as Hnz.
    { destruct (clean_inv _ _ Hclean) as [[Hnz Heq]|(m' & Hd & Heq)].
      - rewrite Heq. apply Forall_forall. intros r Hr.
        split; [by apply elem_of_drop_unadvertised in Hr as [_ ?]|].
        rewrite Forall_forall in Hnz. by apply Hnz.
      - assert (Offer m' 0 ∈ drop_unadvertised (retrieve_offers_from (qid q)))
          as Hm' by (rewrite Hd; left).
        apply elem_of_drop_unadvertised in Hm' as [_ Hm'].
        rewrite Heq. by repeat constructor. }
    destruct (series_min_spec (minSalary o) (minSalary <$> df')) as [_ Hlo].
    destruct (series_max_spec (maxSalary o) (maxSalary <$> df')) as [_ Hhi].
    rewrite <-fmap_cons, Forall_fmap in Hlo, Hhi.
    rewrite Forall_forall in Hnz, Hlo, Hhi. apply Forall_forall.
    intros r Hr. destruct (Hnz r Hr).
    specialize (Hlo r Hr). specialize (Hhi r Hr). simpl in *. done.
  - destruct (IH Hin) as (q' & Hq' & H). exists q'. split; [by right|done].
Qed.

Lemma collected_stats_come_from_cleaned_frames_witness :
  let db := λ qid : Z, if decide (qid = 1) then [Offer 0 9; Offer 18000 24000]
                       else [] in
  let item := Stat "python" [(Offer 18000 24000, 21000)] 24000 18000 21000 21000 in
  ∃ q, q ∈ [Query 0 "cobol" 0; Query 1 "python" 2]
    ∧ qname item = query_name q
    ∧ clean (db (qid q)) = Ok (df item).*1
    ∧ df item ≠ []
    ∧ Forall (λ o, minSalary o ≠ 0 ∧ maxSalary o ≠ 0
                   ∧ min_ item ≤ minSalary o ∧ maxSalary o ≤ max_ item)
        (df item).*1.
Proof.
  intros db item.
  apply (collected_stats_come_from_cleaned_frames db
           [Query 0 "cobol" 0; Query 1 "python" 2] item).
  vm_compute. left.
Defined.

(** ** More about the two orders *)

Lemma stable_sort_sorted {A} (lt : A → A → bool) (l : list A) :
  StronglySorted (not_after lt) l → stable_sort lt l = l.
Proof.
  induction 1 as [|x l Hl IH Hx]; [done|].
  cbn [stable_sort foldr]. fold (stable_sort lt l). rewrite IH.
  destruct Hx as [|y l' Hy _]; [done|].
  cbn [insert_sorted]. unfold not_after in Hy. by rewrite Hy.
Qed.

Lemma sort_reverse_not_after (stats : list stat) :
  StronglySorted (not_after (λ a b, tuple_lt (sort_key b) (sort_key a)))
    (sort_reverse stats).
Proof.
  apply stable_sort_StronglySorted; unfold not_after.
  - intros a b. apply tuple_lt_true.
  - intros a b c. rewrite !tuple_lt_false. intros ??. by trans (sort_key b).
Qed.

Lemma sort_forward_not_after (stats : list stat) :
  StronglySorted (not_after (λ a b, tuple_lt (sort_key a) (sort_key b)))
    (sort_forward stats).
Proof.
  apply stable_sort_StronglySorted; unfold not_after.
  - intros a b. apply tuple_lt_true.
  - intros a b c. rewrite !tuple_lt_false. intros ??. by trans (sort_key b).
Qed.

(** X15. Sorting again changes nothing: each of the two sorts leaves its own
    result as it is, so a report drawn from statistics that are already
    in order keeps them in that order, ties included. *)
Theorem sorting_twice_is_sorting_once (stats : list stat) :
  sort_reverse (sort_reverse stats) = sort_reverse stats
  ∧ sort_forward (sort_forward stats) = sort_forward stats.
Proof.
  split; apply stable_sort_sorted.
  - apply sort_reverse_not_after.
  - apply sort_forward_not_after.
Qed.

Lemma keys_of_the_two_orders (stats : list stat) :
  sort_key <$> sort_forward (sort_reverse stats)
  = reverse (sort_key <$> sort_reverse stats).
Proof.
  apply (StronglySorted_unique key_le).
  - eapply StronglySorted_fmap; [|apply sort_forward_sorted]. done.
  - apply Sorted_StronglySorted; [apply _|].
    apply (Sorted_reverse (flip key_le)), StronglySorted_Sorted.
    eapply StronglySorted_fmap; [|apply sort_reverse_sorted]. done.
  - rewrite reverse_Permutation. apply fmap_Permutation.
    unfold sort_forward. apply stable_sort_Permutation.
Qed.

Lemma eq_of_same_distinct_keys {A B} (f : A → B) (l1 l2 : list A) :
  f <$> l1 = f <$> l2 → l1 ≡ₚ l2 → NoDup (f <$> l1) → l1 = l2.
Proof.
  revert l2. induction l1 as [|x l1 IH]; intros l2 Hf Hp Hnd.
  { by apply Permutation_nil_l in Hp. }
  destruct l2 as [|y l2]; [done|].
  rewrite !fmap_cons in Hf. injection Hf as Hxy Hf.
  rewrite fmap_cons in Hnd. apply NoDup_cons in Hnd as [Hx Hnd].
  assert (x = y) as <-.
  { assert (x ∈ y :: l2) as Hin by (rewrite <-Hp; left).
    apply elem_of_cons in Hin as [?|Hin]; [done|].
    exfalso. apply Hx. rewrite Hf. by apply list_elem_of_fmap_2. }
  f_equal. apply IH; [done| |done]. by apply (inj (x ::.)).
Qed.

(** X16. When no two entries have the same [(max_, median)], the order of
    line 52 is exactly the order of line 31 read backwards: the two
    charts list the queries in opposite orders. *)
Theorem ascending_is_descending_reversed (stats : list stat) :
  NoDup (sort_key <$> stats) →
  sort_forward (sort_reverse stats) = reverse (sort_reverse stats).
Proof.
  intros Hnd.
  assert (sort_reverse stats ≡ₚ stats) as Hp by apply stable_sort_Permutation.
  apply (eq_of_same_distinct_keys sort_key).
  - by rewrite keys_of_the_two_orders, fmap_reverse.
  - rewrite reverse_Permutation. apply stable_sort_Permutation.
  - by rewrite keys_of_the_two_orders, reverse_Permutation, Hp.
Qed.

Lemma ascending_is_descending_reversed_witness :
  let a := Stat "a" [] 50000 20000 30000 30000 in
  let b := Stat "b" [] 70000 20000 30000 40000 in
  let c := Stat "c" [] 50000 20000 30000 35000 in
  sort_forward (sort_reverse [a; b; c]) = reverse (sort_reverse [a; b; c]).
Proof.
  intros a b c. apply (ascending_is_descending_reversed [a; b; c]).
  apply (bool_decide_unpack _). vm_compute. exact I.
Defined.

(** ** [plot_curves] *)

Lemma zip_max_median (stats : list stat) :
  zip (max_ <$> stats) (median <$> stats) = sort_key <$> stats.
Proof.
  induction stats as [|item stats IH]; [done|].
  rewrite !fmap_cons. cbn [zip zip_with]. by rewrite <-IH.
Qed.

(** X17. The [max_] curve that [plot_curves] draws from the order of line 31
    never rises from one query to the next, and where it stays level the
    [median] curve does not rise either; the five arrays have one entry
    per entry of [stats]. *)
Theorem curves_are_drawn_from_the_greatest_max_down (stats : list stat) :
  let '(labels, average, medians, mins, maxs) := plot_curves (sort_reverse stats) in
  StronglySorted (λ a b, b ≤ a) maxs
  ∧ StronglySorted (λ a b, key_le b a) (zip maxs medians)
  ∧ length labels = length stats
  ∧ length average = length stats
  ∧ length medians = length stats
  ∧ length mins = length stats
  ∧ length maxs = length stats.
Proof.
  unfold plot_curves.
  assert (length (sort_reverse stats) = length stats) as Hlen
    by apply length_stable_sort.
  rewrite !length_fmap, Hlen. repeat split; try done.
  - eapply StronglySorted_fmap; [|apply sort_reverse_sorted].
    intros a b. unfold key_le, sort_key. simpl. lia.
  - rewrite zip_max_median.
    eapply StronglySorted_fmap; [|apply sort_reverse_sorted]. done.
Qed.

(** ** Entries with the same key *)

Section SameKey.
Context {A K : Type} `{EqDecision K} (key : A → K) (lt : A → A → bool).
Hypothesis lt_key : ∀ a b, lt a b = true → key a ≠ key b.

Lemma filter_key_insert_sorted (k : K) (x : A) (l : list A) :
  filter (λ a, key a = k) (insert_sorted lt x l)
  = filter (λ a, key a = k) (x :: l).
Proof.
  induction l as [|y l IH]; [done|].
  cbn [insert_sorted]. destruct (lt y x) eqn:Hyx; [|done].
  apply lt_key in Hyx.
  rewrite (filter_cons _ y), IH, !(filter_cons _ x), (filter_cons _ y).
  repeat case_decide; congruence.
Qed.

Lemma filter_key_stable_sort (k : K) (l : list A) :
  filter (λ a, key a = k) (stable_sort lt l) = filter (λ a, key a = k) l.
Proof.
  induction l as [|x l IH]; [done|].
  cbn [stable_sort foldr]. fold (stable_sort lt l).
  by rewrite filter_key_insert_sorted, !(filter_cons _ x), IH.
Qed.

Lemma sorted_by_key_unique (R : relation K) `{!AntiSymm (=) R} (l1 l2 : list A) :
  StronglySorted (λ a b, R (key a) (key b)) l1 →
  StronglySorted (λ a b, R (key a) (key b)) l2 →
  (∀ k, filter (λ a, key a = k) l1 = filter (λ a, key a = k) l2) →
  l1 = l2.
Proof.
  intros Hs1. revert l2.
  induction Hs1 as [|x l1 Hs1 IH Hx]; intros l2 Hs2 Hf.
  { destruct l2 as [|y l2]; [done|].
    specialize (Hf (key y)). by rewrite filter_cons_True in Hf. }
  destruct Hs2 as [|y l2 Hs2 Hy].
  { specialize (Hf (key x)). by rewrite filter_cons_True in Hf. }
  assert (key x = key y) as Hk.
  { assert (x ∈ y :: l2) as Hx2.
    { eapply (list_elem_of_filter (λ a, key a = key x)).
      rewrite <-Hf, filter_cons_True by done. left. }
    assert (y ∈ x :: l1) as Hy1.
    { eapply (list_elem_of_filter (λ a, key a = key y)).
      rewrite Hf, filter_cons_True by done. left. }
    apply elem_of_cons in Hx2 as [->|Hx2]; [done|].
    apply elem_of_cons in Hy1 as [->|Hy1]; [done|].
    rewrite Forall_forall in Hx, Hy.
    apply (anti_symm R); [by apply Hx|by apply Hy]. }
  assert (x = y) as <-.
  { specialize (Hf (key x)).
    rewrite !filter_cons_True in Hf by done. by injection Hf. }
  f_equal. apply IH; [done|]. intros k. specialize (Hf k).
  rewrite !(filter_cons _ x) in Hf. case_decide; [by injection Hf|done].
Qed.
End SameKey.

(** X19. Both sorts are stable: the entries that share a key [(max_, median)]
    stay in the order of the queries, in the one chart and in the
    other. The order of line 52 is therefore the one that sorting the
    statistics as collected would give: it owes nothing to the sort of
    line 31. *)
Theorem entries_with_equal_keys_keep_query_order (stats : list stat) :
  (∀ k, filter (λ item, sort_key item = k) (sort_reverse stats)
        = filter (λ item, sort_key item = k) stats)
  ∧ (∀ k, filter (λ item, sort_key item = k) (sort_forward (sort_reverse stats))
          = filter (λ item, sort_key item = k) stats)
  ∧ sort_forward (sort_reverse stats) = sort_forward stats.
Proof.
  assert (∀ a b, tuple_lt (sort_key b) (sort_key a) = true
                 → sort_key a ≠ sort_key b) as Hrev.
  { intros a b H Heq. rewrite Heq in H. apply tuple_lt_true in H as H'.
    congruence. }
  assert (∀ a b, tuple_lt (sort_key a) (sort_key b) = true
                 → sort_key a ≠ sort_key b) as Hfwd.
  { intros a b H Heq. rewrite Heq in H. apply tuple_lt_true in H as H'.
    congruence. }
  assert (∀ l k, filter (λ item, sort_key item = k) (sort_forward l)
                 = filter (λ item, sort_key item = k) l) as Hf.
  { intros l k. by apply (filter_key_stable_sort sort_key). }
  assert (∀ k, filter (λ item, sort_key item = k) (sort_reverse stats)
               = filter (λ item, sort_key item = k) stats) as Hr.
  { intros k. by apply (filter_key_stable_sort sort_key). }
  split; [done|]. split; [intros k; by rewrite Hf|].
  apply (sorted_by_key_unique sort_key key_le); [apply sort_forward_sorted..|].
  intros k. by rewrite !Hf.
Qed.
